(** * Gateway-configuration controller: translation layer, TLS controller,
      upstream controller and the secret cross-reference index.

    A shallow embedding of
      - pkg/kube/translation/translator.go
      - pkg/ingress/apisix_tls.go
      - pkg/ingress/controller/apisix_upstream.go
    Go pointers that may be nil are [option]s, a Go [(T, error)] result is
    an [outcome], a run-time abort is the [Panic] outcome, and the calls a
    controller makes on its collaborators are recorded, in order, in a
    trace that is threaded through the reconcile functions. *)

From stdpp Require Import gmap strings list.
From Stdlib Require Import ZArith String Ascii.

Open Scope string_scope.
Open Scope Z_scope.

(** ** Go values shared by the three files *)

(** [translateError] of translator.go. *)
Record translateError := mkTranslateError {
  field : string;
  reason : string
}.

(** A Go [error] value.  Three dynamic types matter to the code: the
    translator's own [*translateError], the status error for which
    [k8serrors.IsNotFound] answers true, and everything else. *)
Inductive error :=
| TranslateError (te : translateError)
| StatusNotFound (msg : string)
| OtherError (msg : string).

Definition IsNotFound (err : error) : bool :=
  match err with
  | StatusNotFound _ => true
  | _ => false
  end.

(** [err.Error()]; for a [translateError] it is ["%s: %s"] of field and
    reason. *)
Definition Error (err : error) : string :=
  match err with
  | TranslateError te => field te ++ ": " ++ reason te
  | StatusNotFound msg => msg
  | OtherError msg => msg
  end.

(** What a run-time abort was raised with. *)
Inductive panic :=
| NilPointerDereference
| InterfaceConversion
| PanicValue (msg : string).

(** The three ways a Go call with a [(T, error)] (or plain [error])
    result ends: [(a, nil)], [(nil, err)], or a panic. *)
Inductive outcome (A : Type) :=
| Return (a : A)
| Fail (err : error)
| Panic (p : panic).
Arguments Return {A} a.
Arguments Fail {A} err.
Arguments Panic {A} p.

#[global] Instance outcome_ret : MRet outcome := fun A a => Return a.
#[global] Instance outcome_bind : MBind outcome := fun A B f m =>
  match m with
  | Return a => f a
  | Fail err => Fail err
  | Panic p => Panic p
  end.

(** Dereferencing a pointer. *)
Definition deref {A : Type} (p : option A) : outcome A :=
  match p with
  | Some a => Return a
  | None => Panic NilPointerDereference
  end.

(** An outcome that can only abort on a nil pointer. *)
Definition nil_abort_only {A : Type} (o : outcome A) : Prop :=
  forall p, o = Panic p -> p = NilPointerDereference.

(** A namespaced lister's [Get(name)]: the Go pair of a pointer and an error. *)
Definition lister (T : Type) : Type := string -> string -> option T * option error.

(** Go's [<] on strings: bytewise lexicographic order. *)
Definition string_lt (a b : string) : bool :=
  match String.compare a b with
  | Lt => true
  | _ => false
  end.

(** ** Kubernetes and gateway types, with the fields the code reads *)

Module corev1.
Record ServicePort := { sp_Name : string; sp_Port : Z }.
Record ServiceSpec := { Ports : list ServicePort }.
Record Service := { Spec : ServiceSpec }.

Record EndpointAddress := { IP : string }.
Record EndpointPort := { ep_Name : string; ep_Port : Z }.
Record EndpointSubset := {
  Addresses : list EndpointAddress;
  ss_Ports : list EndpointPort
}.
Record Endpoints := {
  Namespace : string;
  Name : string;
  Subsets : list EndpointSubset
}.
End corev1.

Module discoveryv1beta1.
(** [Name *string], [Port *int32]. *)
Record EndpointPort := { Name : option string; Port : option Z }.
Record Endpoint := { Addresses : list string }.
Record EndpointSlice := {
  es_Namespace : string;
  es_Name : string;
  Endpoints : list Endpoint;
  Ports : list EndpointPort
}.
End discoveryv1beta1.

Module apisixv1.
Record UpstreamNode := { IP : string; Port : Z; Weight : Z }.

(** Modelled from the spec: the gateway [Upstream] type is declared
    outside src/; the spec lists its parts as Nodes, Scheme,
    LoadBalancer, HealthCheck, Retries and Timeout.  Only [Nodes] is
    written by the code under src/, the other parts are tokens that
    the sub-translations fill in. *)
Record Upstream := {
  Nodes : list UpstreamNode;
  Scheme : string;
  LoadBalancer : string;
  HealthCheck : string;
  Retries : Z;
  Timeout : Z
}.

(** [ups.Nodes = nodes]. *)
Definition set_Nodes (nodes : list UpstreamNode) (ups : Upstream) : Upstream :=
  {| Nodes := nodes;
     Scheme := Scheme ups;
     LoadBalancer := LoadBalancer ups;
     HealthCheck := HealthCheck ups;
     Retries := Retries ups;
     Timeout := Timeout ups |}.

(** Modelled from the spec: the gateway [Ssl] type is declared outside
    src/; spec section 3 gives [Ssl{ID, ServerNames[], Certificate,
    PrivateKey, Status}], the test calls the parts ID, Snis, Cert, Key
    and Status. *)
Record Ssl := {
  ID : string;
  Snis : list string;
  Cert : string;
  Key : string;
  Status : Z
}.
End apisixv1.

Module configv1.
(** Modelled from the spec: the declared upstream policy carries
    scheme, load-balancer choice, health-check policy, retries and
    timeout, plus per-port overrides with the same sub-fields. *)
Record ApisixUpstreamConfig := {
  Scheme : string;
  LoadBalancer : string;
  HealthCheck : string;
  Retries : Z;
  Timeout : Z
}.
Record ApisixUpstreamPortLevelSettings := {
  pls_Config : ApisixUpstreamConfig;
  Port : Z
}.
Record ApisixUpstreamSpec := {
  spec_Config : ApisixUpstreamConfig;
  PortLevelSettings : list ApisixUpstreamPortLevelSettings
}.
Record ApisixUpstream := {
  au_ResourceVersion : string;
  Spec : ApisixUpstreamSpec
}.

(** The TLS binding: metadata, host list and secret reference. *)
Record ApisixSecret := { Name : string; Namespace : string }.
Record ApisixTlsSpec := { Hosts : list string; Secret : ApisixSecret }.
Record ApisixTls := {
  tls_Namespace : string;
  tls_Name : string;
  tls_ResourceVersion : string;
  tls_Spec : ApisixTlsSpec
}.
End configv1.

(** ** pkg/kube/translation/translator.go *)

Module translation.

Definition _defaultWeight : Z := 100.

(** [EndpointMode] is a Go [int]; the two declared values are 0 and 1
    ([iota]). *)
Definition EndpointMode : Type := Z.
Definition EndpointsOnly : EndpointMode := 0.
Definition EndpointSliceOnly : EndpointMode := 1.

Record TranslatorOptions := {
  EndpointMode_ : EndpointMode;
  ServiceLister : lister corev1.Service;
  ApisixUpstreamLister : lister configv1.ApisixUpstream
}.

(** [type translator struct { *TranslatorOptions }]. *)
Record translator := { opts : TranslatorOptions }.

Definition NewTranslator (o : TranslatorOptions) : translator :=
  {| opts := o |}.

(** What the translator uses without declaring it in translator.go: the
    package-level informer factory of [kube], the default upstream of
    [apisixv1], and the four sub-translations, each of which receives
    the upstream built so far and returns its error together with the
    upstream as it left it. *)
Record Env := {
  EndpointsLister : lister corev1.Endpoints;
  EndpointSlicesLister : lister discoveryv1beta1.EndpointSlice;
  NewDefaultUpstream : apisixv1.Upstream;
  translateUpstreamScheme :
    string -> apisixv1.Upstream -> option error * apisixv1.Upstream;
  translateUpstreamLoadBalancer :
    string -> apisixv1.Upstream -> option error * apisixv1.Upstream;
  translateUpstreamHealthCheck :
    string -> apisixv1.Upstream -> option error * apisixv1.Upstream;
  translateUpstreamRetriesAndTimeout :
    Z -> Z -> apisixv1.Upstream -> option error * apisixv1.Upstream
}.

(** [if err := f(ups); err != nil { return nil, err }]. *)
Definition step (r : option error * apisixv1.Upstream) : outcome apisixv1.Upstream :=
  match r with
  | (Some err, _) => Fail err
  | (None, ups) => Return ups
  end.

Definition TranslateUpstreamConfig (E : Env) (au : configv1.ApisixUpstreamConfig)
  : outcome apisixv1.Upstream :=
  let ups := NewDefaultUpstream E in
  ups ← step (translateUpstreamScheme E (configv1.Scheme au) ups);
  ups ← step (translateUpstreamLoadBalancer E (configv1.LoadBalancer au) ups);
  ups ← step (translateUpstreamHealthCheck E (configv1.HealthCheck au) ups);
  ups ← step (translateUpstreamRetriesAndTimeout E
                (configv1.Retries au) (configv1.Timeout au) ups);
  Return ups.

(** The loop over [svc.Spec.Ports]: the first port whose number is the
    requested one. *)
Fixpoint findServicePort (ports : list corev1.ServicePort) (port : Z)
  : option corev1.ServicePort :=
  match ports with
  | [] => None
  | exposePort :: rest =>
      if corev1.sp_Port exposePort =? port then Some exposePort
      else findServicePort rest port
  end.

(** The loop over [subset.Ports]: the first port with the given name. *)
Fixpoint findEndpointPort (ports : list corev1.EndpointPort) (name : string)
  : option corev1.EndpointPort :=
  match ports with
  | [] => None
  | port :: rest =>
      if String.eqb (corev1.ep_Name port) name then Some port
      else findEndpointPort rest name
  end.

(** The loop over [subset.Addresses], appending to [nodes]. *)
Fixpoint appendAddresses (epPort : corev1.EndpointPort)
    (addrs : list corev1.EndpointAddress) (nodes : list apisixv1.UpstreamNode)
  : list apisixv1.UpstreamNode :=
  match addrs with
  | [] => nodes
  | addr :: rest =>
      appendAddresses epPort rest
        (nodes ++ [ {| apisixv1.IP := corev1.IP addr;
                       apisixv1.Port := corev1.ep_Port epPort;
                       apisixv1.Weight := _defaultWeight |} ])
  end.

(** The loop over [endpoints.Subsets]. *)
Fixpoint rangeSubsets (svcPort : corev1.ServicePort)
    (subsets : list corev1.EndpointSubset) (nodes : list apisixv1.UpstreamNode)
  : list apisixv1.UpstreamNode :=
  match subsets with
  | [] => nodes
  | subset :: rest =>
      match findEndpointPort (corev1.ss_Ports subset) (corev1.sp_Name svcPort) with
      | Some epPort =>
          rangeSubsets svcPort rest
            (appendAddresses epPort (corev1.Addresses subset) nodes)
      | None => rangeSubsets svcPort rest nodes
      end
  end.

Definition TranslateUpstreamNodes (t : translator) (endpoints : corev1.Endpoints)
    (port : Z) : outcome (list apisixv1.UpstreamNode) :=
  let '(svc, err) := ServiceLister (opts t)
                       (corev1.Namespace endpoints) (corev1.Name endpoints) in
  match err with
  | Some err =>
      Fail (TranslateError {| field := "service"; reason := Error err |})
  | None =>
      svc ← deref svc;
      match findServicePort (corev1.Ports (corev1.Spec svc)) port with
      | None =>
          Fail (TranslateError {| field := "service.spec.ports";
                                  reason := "port not defined" |})
      | Some svcPort =>
          Return (rangeSubsets svcPort (corev1.Subsets endpoints) [])
      end
  end.

(** The loop over the slice's [Ports]; [*port.Name] aborts on a nil
    name. *)
Fixpoint findSlicePort (ports : list discoveryv1beta1.EndpointPort) (name : string)
  : outcome (option discoveryv1beta1.EndpointPort) :=
  match ports with
  | [] => Return None
  | port :: rest =>
      n ← deref (discoveryv1beta1.Name port);
      if String.eqb n name then Return (Some port)
      else findSlicePort rest name
  end.

(** The loop over [ep.Addresses]; [*epPort.Port] is evaluated once per
    address. *)
Fixpoint appendSliceAddresses (epPort : discoveryv1beta1.EndpointPort)
    (addrs : list string) (nodes : list apisixv1.UpstreamNode)
  : outcome (list apisixv1.UpstreamNode) :=
  match addrs with
  | [] => Return nodes
  | addr :: rest =>
      p ← deref (discoveryv1beta1.Port epPort);
      appendSliceAddresses epPort rest
        (nodes ++ [ {| apisixv1.IP := addr;
                       apisixv1.Port := p;
                       apisixv1.Weight := _defaultWeight |} ])
  end.

(** The loop over [endpoints.Endpoints]; the port search runs again
    for every endpoint, over the ports of the slice. *)
Fixpoint rangeEndpoints (svcPort : corev1.ServicePort)
    (ports : list discoveryv1beta1.EndpointPort)
    (eps : list discoveryv1beta1.Endpoint) (nodes : list apisixv1.UpstreamNode)
  : outcome (list apisixv1.UpstreamNode) :=
  match eps with
  | [] => Return nodes
  | ep :: rest =>
      epPort ← findSlicePort ports (corev1.sp_Name svcPort);
      match epPort with
      | Some epPort =>
          nodes ← appendSliceAddresses epPort (discoveryv1beta1.Addresses ep) nodes;
          rangeEndpoints svcPort ports rest nodes
      | None => rangeEndpoints svcPort ports rest nodes
      end
  end.

Definition TranslateUpstreamNodesFromEndpointSlice (t : translator)
    (endpoints : discoveryv1beta1.EndpointSlice) (port : Z)
  : outcome (list apisixv1.UpstreamNode) :=
  let '(svc, err) := ServiceLister (opts t)
                       (discoveryv1beta1.es_Namespace endpoints)
                       (discoveryv1beta1.es_Name endpoints) in
  match err with
  | Some err =>
      Fail (TranslateError {| field := "service"; reason := Error err |})
  | None =>
      svc ← deref svc;
      match findServicePort (corev1.Ports (corev1.Spec svc)) port with
      | None =>
          Fail (TranslateError {| field := "service.spec.ports";
                                  reason := "port not defined" |})
      | Some svcPort =>
          rangeEndpoints svcPort (discoveryv1beta1.Ports endpoints)
            (discoveryv1beta1.Endpoints endpoints) []
      end
  end.

(** The [switch t.EndpointMode] at the head of [TranslateUpstream]. *)
Definition resolveNodes (E : Env) (t : translator) (namespace name : string)
    (port : Z) : outcome (list apisixv1.UpstreamNode) :=
  if EndpointMode_ (opts t) =? EndpointSliceOnly then
    let '(endpointSlice, err) := EndpointSlicesLister E namespace name in
    match err with
    | Some err =>
        Fail (TranslateError {| field := "endpointslice"; reason := Error err |})
    | None =>
        endpointSlice ← deref endpointSlice;
        TranslateUpstreamNodesFromEndpointSlice t endpointSlice port
    end
  else if EndpointMode_ (opts t) =? EndpointsOnly then
    let '(endpoints, err) := EndpointsLister E namespace name in
    match err with
    | Some err =>
        Fail (TranslateError {| field := "endpoints"; reason := Error err |})
    | None =>
        endpoints ← deref endpoints;
        TranslateUpstreamNodes t endpoints port
    end
  else Panic (PanicValue "not exists EndpointMode").

(** The loop over [au.Spec.PortLevelSettings]: the first override for
    the port, the top-level configuration when there is none. *)
Fixpoint selectConfig (upsCfg : configv1.ApisixUpstreamConfig)
    (settings : list configv1.ApisixUpstreamPortLevelSettings) (port : Z)
  : configv1.ApisixUpstreamConfig :=
  match settings with
  | [] => upsCfg
  | pls :: rest =>
      if configv1.Port pls =? port then configv1.pls_Config pls
      else selectConfig upsCfg rest port
  end.

Definition TranslateUpstream (E : Env) (t : translator) (namespace name : string)
    (port : Z) : outcome apisixv1.Upstream :=
  nodes ← resolveNodes E t namespace name port;
  let ups := NewDefaultUpstream E in
  let '(au, err) := ApisixUpstreamLister (opts t) namespace name in
  match err with
  | Some err =>
      if IsNotFound err then Return (apisixv1.set_Nodes nodes ups)
      else Fail (TranslateError {| field := "ApisixUpstream"; reason := Error err |})
  | None =>
      au ← deref au;
      let upsCfg := selectConfig (configv1.spec_Config (configv1.Spec au))
                      (configv1.PortLevelSettings (configv1.Spec au)) port in
      ups ← TranslateUpstreamConfig E upsCfg;
      Return (apisixv1.set_Nodes nodes ups)
  end.

End translation.

(** Modelled from the spec: [TranslateSSL] is a method of the translator
    that is declared outside src/.  Spec section 4.2: derive [ID] from the
    binding's namespace/name; take the declared host list as server names;
    fetch the referenced secret (namespace/name given in the binding spec)
    through the secret lookup collaborator; fail with field=[secret] if not
    found; take certificate and private key from the secret payload
    (entries [cert] and [key] in the test's secret); a missing or malformed
    secret makes the whole translation fail and no partial object is
    returned.  [Status] is 1 as in the test's expected object. *)
Module translation_ssl.

Record Secret := { Data : gmap string string }.

Definition TranslateSSL (SecretLister : lister Secret) (tls : configv1.ApisixTls)
  : outcome apisixv1.Ssl :=
  let ref := configv1.Secret (configv1.tls_Spec tls) in
  match SecretLister (configv1.Namespace ref) (configv1.Name ref) with
  | (_, Some err) =>
      Fail (TranslateError {| field := "secret"; reason := Error err |})
  | (None, None) =>
      Fail (TranslateError {| field := "secret"; reason := "not found" |})
  | (Some s, None) =>
      match Data s !! "cert", Data s !! "key" with
      | Some cert, Some key =>
          Return {| apisixv1.ID := configv1.tls_Namespace tls ++ "_" ++ configv1.tls_Name tls;
                    apisixv1.Snis := configv1.Hosts (configv1.tls_Spec tls);
                    apisixv1.Cert := cert;
                    apisixv1.Key := key;
                    apisixv1.Status := 1 |}
      | _, _ =>
          Fail (TranslateError {| field := "secret"; reason := "malformed" |})
      end
  end.

End translation_ssl.

(** ** pkg/types: the queue item of the TLS controller *)

Module types.

Inductive EventType := EventAdd | EventUpdate | EventDelete.

#[global] Instance EventType_eq_dec : EqDecision EventType.
Proof. solve_decision. Defined.

(** [Object] always holds the key string in this controller; [Tombstone]
    is an [interface{}] that is nil or holds the last known binding. *)
Record Event := {
  Type_ : EventType;
  Object : string;
  Tombstone : option configv1.ApisixTls
}.

End types.

(** ** pkg/ingress/apisix_tls.go *)

Module ingress.

Definition _tlsController : string := "TlsController".

(** The values an [interface{}] handed to the event handlers can hold. *)
Inductive object :=
| ApisixTlsPtr (tls : configv1.ApisixTls)
| DeletedFinalStateUnknown (key : string) (obj : object)
| OtherObject.

(** The secret cross-reference index, [Controller.secretSSLMap]: a
    [sync.Map] from secret identity to a pointer to a [sync.Map] from ssl
    ID to ssl.  Every bucket is created by [new(sync.Map)] in
    [syncSecretSSL] and stored under one key only, so a bucket is
    reachable from no other key and the value of the outer map at a key
    is the content of its bucket. *)
Abbreviation secretSSLMap_t := (gmap string (gmap string apisixv1.Ssl)).

(** Reasons and messages of recorded events; the format strings are
    package constants, a message is kept as the format applied to its
    arguments. *)
Inductive Reason := _resourceSynced | _resourceSyncAborted.
Inductive Message :=
| _messageResourceFailed (component : string) (err : string)
| _messageResourceSynced (component : string).

Definition EventTypeWarning : string := "Warning".
Definition EventTypeNormal : string := "Normal".

(** The calls the controller makes on its collaborators.  The call of
    the gateway sync carries the index as it stands when the call is
    made.  Log statements are left out. *)
Inductive effect :=
| CallTranslateSSL (tls : configv1.ApisixTls)
| CallSyncSSL (index : secretSSLMap_t) (ssl : apisixv1.Ssl) (event : types.EventType)
| RecorderEvent (tls : configv1.ApisixTls) (eventtype : string)
    (reason : Reason) (message : Message)
| WorkqueueDone (ev : types.Event)
| WorkqueueForget (ev : types.Event)
| WorkqueueAddRateLimited (ev : types.Event).

Record state := {
  secretSSLMap : secretSSLMap_t;
  trace : list effect
}.

Definition emit (e : effect) (s : state) : state :=
  {| secretSSLMap := secretSSLMap s; trace := trace s ++ [e] |}.

(** What [apisixTlsController] reaches through [c.controller] and the
    [cache] package: the lister, the translator's [TranslateSSL], the
    gateway sync [syncSSL] (a method of the controller, so it is given
    the index it can read), the namespace predicate and the key
    functions. *)
Record Controller := {
  apisixTlsLister : lister configv1.ApisixTls;
  TranslateSSL : configv1.ApisixTls -> outcome apisixv1.Ssl;
  syncSSL : secretSSLMap_t -> apisixv1.Ssl -> types.EventType -> option error;
  namespaceWatching : string -> bool;
  SplitMetaNamespaceKey : string -> (string * string) * option error;
  MetaNamespaceKeyFunc : object -> string * option error;
  DeletionHandlingMetaNamespaceKeyFunc : object -> string * option error
}.

Definition syncSecretSSL (key : string) (ssl : apisixv1.Ssl) (event : types.EventType)
    (m : secretSSLMap_t) : secretSSLMap_t :=
  match m !! key with
  | Some sslMap =>
      match event with
      | types.EventDelete => <[key := delete (apisixv1.ID ssl) sslMap]> m
      | _ => <[key := <[apisixv1.ID ssl := ssl]> sslMap]> m
      end
  | None =>
      if decide (event ≠ types.EventDelete)
      then <[key := {[apisixv1.ID ssl := ssl]}]> m
      else m
  end.

(** How the first part of [sync] ends: with a [return], or with the
    binding that goes on to translation. *)
Inductive resolution :=
| Returned (r : outcome unit)
| Effective (tls : option configv1.ApisixTls).

(** [sync] up to and including [if ev.Type == types.EventDelete {...}]. *)
Definition resolve (c : Controller) (ev : types.Event) : resolution :=
  let key := types.Object ev in
  match SplitMetaNamespaceKey c key with
  | (_, Some err) => Returned (Fail err)
  | ((namespace, name), None) =>
      let '(tls, err) := apisixTlsLister c namespace name in
      let after_get :=
        if decide (types.Type_ ev = types.EventDelete) then
          match tls with
          | Some _ => Returned (Return tt)
          | None =>
              match types.Tombstone ev with
              | Some tombstone => Effective (Some tombstone)
              | None => Returned (Panic InterfaceConversion)
              end
          end
        else Effective tls in
      match err with
      | Some err =>
          if negb (IsNotFound err) then Returned (Fail err)
          else if decide (types.Type_ ev ≠ types.EventDelete) then Returned (Return tt)
          else after_get
      | None => after_get
      end
  end.

(** [sync] from [TranslateSSL] on.  The binding is dereferenced by the
    translator, and again for [tls.Spec.Secret]. *)
Definition reconcile (c : Controller) (ev : types.Event)
    (tls : option configv1.ApisixTls) (s : state) : outcome unit * state :=
  match tls with
  | None => (Panic NilPointerDereference, s)
  | Some tls =>
      let s := emit (CallTranslateSSL tls) s in
      match TranslateSSL c tls with
      | Panic p => (Panic p, s)
      | Fail err =>
          let message := _messageResourceFailed _tlsController (Error err) in
          (Fail err, emit (RecorderEvent tls EventTypeWarning _resourceSyncAborted message) s)
      | Return ssl =>
          let ref := configv1.Secret (configv1.tls_Spec tls) in
          let secretKey := configv1.Namespace ref ++ "_" ++ configv1.Name ref in
          let s := {| secretSSLMap := syncSecretSSL secretKey ssl (types.Type_ ev) (secretSSLMap s);
                      trace := trace s |} in
          let s := emit (CallSyncSSL (secretSSLMap s) ssl (types.Type_ ev)) s in
          match syncSSL c (secretSSLMap s) ssl (types.Type_ ev) with
          | Some err =>
              let message := _messageResourceFailed _tlsController (Error err) in
              (Fail err, emit (RecorderEvent tls EventTypeWarning _resourceSyncAborted message) s)
          | None =>
              let message := _messageResourceSynced _tlsController in
              (Return tt, emit (RecorderEvent tls EventTypeNormal _resourceSynced message) s)
          end
      end
  end.

Definition sync (c : Controller) (ev : types.Event) (s : state) : outcome unit * state :=
  match resolve c ev with
  | Returned r => (r, s)
  | Effective tls => reconcile c ev tls s
  end.

Definition handleSyncErr (obj : types.Event) (err : option error) (s : state) : state :=
  match err with
  | None => emit (WorkqueueForget obj) s
  | Some _ => emit (WorkqueueAddRateLimited obj) s
  end.

(** The body of the loop of [runWorker], for an item [obj] that
    [workqueue.Get] handed out. *)
Definition runWorker (c : Controller) (obj : types.Event) (s : state)
  : outcome unit * state :=
  match sync c obj s with
  | (Panic p, s) => (Panic p, s)
  | (Fail err, s) => (Return tt, handleSyncErr obj (Some err) (emit (WorkqueueDone obj) s))
  | (Return _, s) => (Return tt, handleSyncErr obj None (emit (WorkqueueDone obj) s))
  end.

Definition onAdd (c : Controller) (obj : object) (s : state) : state :=
  match MetaNamespaceKeyFunc c obj with
  | (_, Some err) => s
  | (key, None) =>
      if negb (namespaceWatching c key) then s
      else emit (WorkqueueAddRateLimited
                   {| types.Type_ := types.EventAdd;
                      types.Object := key;
                      types.Tombstone := None |}) s
  end.

Definition onUpdate (c : Controller) (prev curr : object) (s : state)
  : outcome unit * state :=
  match prev, curr with
  | ApisixTlsPtr oldTls, ApisixTlsPtr newTls =>
      if String.eqb (configv1.tls_ResourceVersion oldTls)
                    (configv1.tls_ResourceVersion newTls)
      then (Return tt, s)
      else
        match MetaNamespaceKeyFunc c curr with
        | (_, Some err) => (Return tt, s)
        | (key, None) =>
            if negb (namespaceWatching c key) then (Return tt, s)
            else (Return tt,
                  emit (WorkqueueAddRateLimited
                          {| types.Type_ := types.EventUpdate;
                             types.Object := key;
                             types.Tombstone := None |}) s)
        end
  | _, _ => (Panic InterfaceConversion, s)
  end.

Definition onDelete (c : Controller) (obj : object) (s : state) : state :=
  let tls :=
    match obj with
    | ApisixTlsPtr tls => Some tls
    | DeletedFinalStateUnknown _ (ApisixTlsPtr tls) => Some tls
    | _ => None
    end in
  match tls with
  | None => s
  | Some tls =>
      match DeletionHandlingMetaNamespaceKeyFunc c obj with
      | (_, Some err) => s
      | (key, None) =>
          if negb (namespaceWatching c key) then s
          else emit (WorkqueueAddRateLimited
                       {| types.Type_ := types.EventDelete;
                          types.Object := key;
                          types.Tombstone := Some tls |}) s
      end
  end.

End ingress.

(** ** pkg/ingress/controller/apisix_upstream.go *)

Module controller.

(** Modelled from the spec: the operation names are package constants
    declared outside src/; the struct tag of [Ope] lists them as add,
    update and delete. *)
Definition ADD : string := "ADD".
Definition UPDATE : string := "UPDATE".
Definition DELETE : string := "DELETE".

Record UpstreamQueueObj := {
  Key : string;
  OldObj : option configv1.ApisixUpstream;
  Ope : string
}.

(** The values an [interface{}] handed to the event handlers or taken
    from the work queue can hold. *)
Inductive object :=
| ApisixUpstreamPtr (u : configv1.ApisixUpstream)
| DeletedFinalStateUnknown (key : string) (obj : object)
| UpstreamQueueObjPtr (sqo : UpstreamQueueObj)
| OtherObject.

(** The calls the controller makes on its collaborators: the builder's
    [Convert], the combination's [Remove] and [Solver], and the work
    queue.  Log statements and [runtime.HandleError] are left out. *)
Inductive effect :=
| CallConvert (crd : option configv1.ApisixUpstream)
| CallRemove (upstreams : list apisixv1.Upstream)
| CallSolver (upstreams : list apisixv1.Upstream)
| WorkqueueDone (obj : object)
| WorkqueueForget (obj : object)
| WorkqueueAddRateLimited (obj : object).

Definition state : Type := list effect.

Definition emit (e : effect) (s : state) : state := (s ++ [e])%list.

(** What [ApisixUpstreamController] reaches through its fields and the
    packages [apisix], [state] and [cache]. *)
Record ApisixUpstreamController := {
  apisixUpstreamList : lister configv1.ApisixUpstream;
  Convert : option configv1.ApisixUpstream -> list apisixv1.Upstream;
  Remove : list apisixv1.Upstream -> option error;
  Solver : list apisixv1.Upstream -> option error;
  SplitMetaNamespaceKey : string -> (string * string) * option error;
  MetaNamespaceKeyFunc : object -> string * option error;
  DeletionHandlingMetaNamespaceKeyFunc : object -> string * option error
}.

(** [syncHandler] from [aub := ...] on. *)
Definition apply (c : ApisixUpstreamController) (sqo : UpstreamQueueObj)
    (apisixUpstreamYaml : option configv1.ApisixUpstream) (s : state)
  : outcome unit * state :=
  let s := emit (CallConvert apisixUpstreamYaml) s in
  let upstreams := Convert c apisixUpstreamYaml in
  if String.eqb (Ope sqo) DELETE then
    let s := emit (CallRemove upstreams) s in
    match Remove c upstreams with
    | Some err => (Fail err, s)
    | None => (Return tt, s)
    end
  else
    let s := emit (CallSolver upstreams) s in
    match Solver c upstreams with
    | Some err => (Fail err, s)
    | None => (Return tt, s)
    end.

Definition syncHandler (c : ApisixUpstreamController) (sqo : UpstreamQueueObj)
    (s : state) : outcome unit * state :=
  match SplitMetaNamespaceKey c (Key sqo) with
  | (_, Some err) => (Fail (OtherError ("invalid resource key: " ++ Key sqo)), s)
  | ((namespace, name), None) =>
      if String.eqb (Ope sqo) DELETE then
        let '(apisixIngressUpstream, _) := apisixUpstreamList c namespace name in
        match apisixIngressUpstream with
        | Some cached =>
            match OldObj sqo with
            | None => (Panic NilPointerDereference, s)
            | Some old =>
                if string_lt (configv1.au_ResourceVersion old)
                             (configv1.au_ResourceVersion cached)
                then (Return tt, s)
                else apply c sqo (OldObj sqo) s
            end
        | None => apply c sqo (OldObj sqo) s
        end
      else
        let '(apisixUpstreamYaml, err) := apisixUpstreamList c namespace name in
        match err with
        | Some err =>
            if IsNotFound err then (Return tt, s)
            else (Fail err, s)
        | None => apply c sqo apisixUpstreamYaml s
        end
  end.

(** [processNextWorkItem] for an item [obj] that [workqueue.Get] handed
    out without shutdown.  [Done] is deferred in the inner function, so
    it runs after [Forget] or [AddRateLimited], and also when the handler
    panics; what the deferred [recoverException] then does is declared
    outside src/, the panic is kept as the outcome. *)
Definition processNextWorkItem (c : ApisixUpstreamController) (obj : object)
    (s : state) : outcome bool * state :=
  match obj with
  | UpstreamQueueObjPtr sqo =>
      match syncHandler c sqo s with
      | (Panic p, s) => (Panic p, emit (WorkqueueDone obj) s)
      | (Fail err, s) =>
          (Return true, emit (WorkqueueDone obj) (emit (WorkqueueAddRateLimited obj) s))
      | (Return _, s) =>
          (Return true, emit (WorkqueueDone obj) (emit (WorkqueueForget obj) s))
      end
  | _ => (Return true, emit (WorkqueueDone obj) (emit (WorkqueueForget obj) s))
  end.

Definition addFunc (c : ApisixUpstreamController) (obj : object) (s : state) : state :=
  match MetaNamespaceKeyFunc c obj with
  | (_, Some err) => s
  | (key, None) =>
      let sqo := {| Key := key; OldObj := None; Ope := ADD |} in
      emit (WorkqueueAddRateLimited (UpstreamQueueObjPtr sqo)) s
  end.

(** [>=] on the resource versions is Go's string order. *)
Definition updateFunc (c : ApisixUpstreamController) (oldObj newObj : object)
    (s : state) : outcome unit * state :=
  match oldObj, newObj with
  | ApisixUpstreamPtr oldUpstream, ApisixUpstreamPtr newUpstream =>
      if negb (string_lt (configv1.au_ResourceVersion oldUpstream)
                         (configv1.au_ResourceVersion newUpstream))
      then (Return tt, s)
      else
        match MetaNamespaceKeyFunc c newObj with
        | (_, Some err) => (Return tt, s)
        | (key, None) =>
            let sqo := {| Key := key; OldObj := Some oldUpstream; Ope := UPDATE |} in
            (Return tt, addFunc c (UpstreamQueueObjPtr sqo) s)
        end
  | _, _ => (Panic InterfaceConversion, s)
  end.

Definition deleteFunc (c : ApisixUpstreamController) (obj : object) (s : state) : state :=
  let oldUpstream :=
    match obj with
    | ApisixUpstreamPtr u => Some u
    | DeletedFinalStateUnknown _ (ApisixUpstreamPtr u) => Some u
    | _ => None
    end in
  match oldUpstream with
  | None => s
  | Some oldUpstream =>
      match DeletionHandlingMetaNamespaceKeyFunc c obj with
      | (_, Some err) => s
      | (key, None) =>
          let sqo := {| Key := key; OldObj := Some oldUpstream; Ope := DELETE |} in
          emit (WorkqueueAddRateLimited (UpstreamQueueObjPtr sqo)) s
      end
  end.

End controller.

(** ** Node resolution as the specification words it *)

Module nodes_spec.

(** One node per address of the subset at the port, weight 100. *)
Definition node_at (epPort : corev1.EndpointPort) (addr : corev1.EndpointAddress)
  : apisixv1.UpstreamNode :=
  {| apisixv1.IP := corev1.IP addr;
     apisixv1.Port := corev1.ep_Port epPort;
     apisixv1.Weight := 100 |}.

(** A subset with a port of the given name yields a node per address; a
    subset without one is skipped. *)
Definition nodes_of_subset (name : string) (subset : corev1.EndpointSubset)
  : list apisixv1.UpstreamNode :=
  match List.find (fun p => String.eqb (corev1.ep_Name p) name) (corev1.ss_Ports subset) with
  | Some epPort => List.map (node_at epPort) (corev1.Addresses subset)
  | None => []
  end.

Definition nodes_of_subsets (name : string) (subsets : list corev1.EndpointSubset)
  : list apisixv1.UpstreamNode :=
  List.flat_map (nodes_of_subset name) subsets.

(** The node of a slice address at a port number. *)
Definition slice_node (addr : string) (p : Z) : apisixv1.UpstreamNode :=
  {| apisixv1.IP := addr; apisixv1.Port := p; apisixv1.Weight := 100 |}.

End nodes_spec.

(** ** Concrete clusters used to exercise the statements *)

Module demo.

Definition no_upstream : lister configv1.ApisixUpstream :=
  fun _ _ => (None, Some (StatusNotFound "apisixupstream not found")).

(** Service [ns/svc] exposes port 80 named [http]; its endpoints serve
    [http] on 8080 at two addresses, and a second subset only has
    [metrics]. *)
Definition svc : corev1.Service :=
  {| corev1.Spec := {| corev1.Ports :=
       [ {| corev1.sp_Name := "https"; corev1.sp_Port := 443 |};
         {| corev1.sp_Name := "http"; corev1.sp_Port := 80 |} ] |} |}.

Definition services : lister corev1.Service :=
  fun namespace name =>
    if (String.eqb namespace "ns" && String.eqb name "svc")%bool
    then (Some svc, None)
    else (None, Some (StatusNotFound "service not found")).

Definition endpoints : corev1.Endpoints :=
  {| corev1.Namespace := "ns";
     corev1.Name := "svc";
     corev1.Subsets :=
       [ {| corev1.Addresses := [ {| corev1.IP := "10.0.0.5" |}; {| corev1.IP := "10.0.0.6" |} ];
            corev1.ss_Ports := [ {| corev1.ep_Name := "http"; corev1.ep_Port := 8080 |} ] |};
         {| corev1.Addresses := [ {| corev1.IP := "10.0.0.7" |} ];
            corev1.ss_Ports := [ {| corev1.ep_Name := "metrics"; corev1.ep_Port := 9090 |} ] |} ] |}.

Definition slice : discoveryv1beta1.EndpointSlice :=
  {| discoveryv1beta1.es_Namespace := "ns";
     discoveryv1beta1.es_Name := "svc";
     discoveryv1beta1.Endpoints :=
       [ {| discoveryv1beta1.Addresses := [ "10.0.0.5" ] |};
         {| discoveryv1beta1.Addresses := [ "10.0.0.6" ] |} ];
     discoveryv1beta1.Ports :=
       [ {| discoveryv1beta1.Name := Some "http"; discoveryv1beta1.Port := Some 8080 |} ] |}.

Definition translator_with (mode : translation.EndpointMode)
    (upstreams : lister configv1.ApisixUpstream) : translation.translator :=
  translation.NewTranslator
    {| translation.EndpointMode_ := mode;
       translation.ServiceLister := services;
       translation.ApisixUpstreamLister := upstreams |}.

Definition t_endpoints : translation.translator :=
  translator_with translation.EndpointsOnly no_upstream.

(** The informer factory serves [endpoints] and [slice]; the default
    upstream is round-robin over http; each sub-translation copies its
    token into the upstream and rejects the scheme [ftp]. *)
Definition default_upstream : apisixv1.Upstream :=
  {| apisixv1.Nodes := [];
     apisixv1.Scheme := "http";
     apisixv1.LoadBalancer := "roundrobin";
     apisixv1.HealthCheck := "";
     apisixv1.Retries := 0;
     apisixv1.Timeout := 0 |}.

Definition env : translation.Env :=
  {| translation.EndpointsLister := fun namespace name =>
       if (String.eqb namespace "ns" && String.eqb name "svc")%bool
       then (Some endpoints, None)
       else (None, Some (StatusNotFound "endpoints not found"));
     translation.EndpointSlicesLister := fun namespace name =>
       if (String.eqb namespace "ns" && String.eqb name "svc")%bool
       then (Some slice, None)
       else (None, Some (StatusNotFound "endpointslice not found"));
     translation.NewDefaultUpstream := default_upstream;
     translation.translateUpstreamScheme := fun scheme ups =>
       if String.eqb scheme "ftp"
       then (Some (TranslateError {| field := "scheme"; reason := "invalid value" |}), ups)
       else (None, {| apisixv1.Nodes := apisixv1.Nodes ups;
                      apisixv1.Scheme := scheme;
                      apisixv1.LoadBalancer := apisixv1.LoadBalancer ups;
                      apisixv1.HealthCheck := apisixv1.HealthCheck ups;
                      apisixv1.Retries := apisixv1.Retries ups;
                      apisixv1.Timeout := apisixv1.Timeout ups |});
     translation.translateUpstreamLoadBalancer := fun lb ups =>
       (None, {| apisixv1.Nodes := apisixv1.Nodes ups;
                 apisixv1.Scheme := apisixv1.Scheme ups;
                 apisixv1.LoadBalancer := lb;
                 apisixv1.HealthCheck := apisixv1.HealthCheck ups;
                 apisixv1.Retries := apisixv1.Retries ups;
                 apisixv1.Timeout := apisixv1.Timeout ups |});
     translation.translateUpstreamHealthCheck := fun hc ups =>
       (None, {| apisixv1.Nodes := apisixv1.Nodes ups;
                 apisixv1.Scheme := apisixv1.Scheme ups;
                 apisixv1.LoadBalancer := apisixv1.LoadBalancer ups;
                 apisixv1.HealthCheck := hc;
                 apisixv1.Retries := apisixv1.Retries ups;
                 apisixv1.Timeout := apisixv1.Timeout ups |});
     translation.translateUpstreamRetriesAndTimeout := fun retries timeout ups =>
       (None, {| apisixv1.Nodes := apisixv1.Nodes ups;
                 apisixv1.Scheme := apisixv1.Scheme ups;
                 apisixv1.LoadBalancer := apisixv1.LoadBalancer ups;
                 apisixv1.HealthCheck := apisixv1.HealthCheck ups;
                 apisixv1.Retries := retries;
                 apisixv1.Timeout := timeout |}) |}.

(** An upstream policy for [ns/svc]: http at the top level, grpc for
    port 80. *)
Definition top_config : configv1.ApisixUpstreamConfig :=
  {| configv1.Scheme := "http"; configv1.LoadBalancer := "roundrobin";
     configv1.HealthCheck := ""; configv1.Retries := 1; configv1.Timeout := 5 |}.

Definition port80_config : configv1.ApisixUpstreamConfig :=
  {| configv1.Scheme := "grpc"; configv1.LoadBalancer := "chash";
     configv1.HealthCheck := "active"; configv1.Retries := 3; configv1.Timeout := 9 |}.

Definition policy : configv1.ApisixUpstream :=
  {| configv1.au_ResourceVersion := "7";
     configv1.Spec :=
       {| configv1.spec_Config := top_config;
          configv1.PortLevelSettings :=
            [ {| configv1.pls_Config := port80_config; configv1.Port := 80 |} ] |} |}.

Definition with_policy : lister configv1.ApisixUpstream :=
  fun _ _ => (Some policy, None).

Definition t_policy : translation.translator :=
  translator_with translation.EndpointsOnly with_policy.

(** The TLS binding [helm/foo] of the test, its secret, and a TLS
    controller over a cache that answers every lookup with [cached]. *)
Definition tls_at (version : string) : configv1.ApisixTls :=
  {| configv1.tls_Namespace := "helm";
     configv1.tls_Name := "foo";
     configv1.tls_ResourceVersion := version;
     configv1.tls_Spec :=
       {| configv1.Hosts := [ "api6.com" ];
          configv1.Secret := {| configv1.Name := "test-atls";
                                configv1.Namespace := "helm" |} |} |}.

Definition secrets : lister translation_ssl.Secret :=
  fun namespace name =>
    if (String.eqb namespace "helm" && String.eqb name "test-atls")%bool
    then (Some {| translation_ssl.Data :=
                    <["cert" := "root"]> (<["key" := "123456"]> ∅) |}, None)
    else (None, Some (StatusNotFound "secret not found")).

Definition no_secrets : lister translation_ssl.Secret :=
  fun _ _ => (None, Some (OtherError "NOT FOUND")).

Definition ssl_foo : apisixv1.Ssl :=
  {| apisixv1.ID := "helm_foo";
     apisixv1.Snis := [ "api6.com" ];
     apisixv1.Cert := "root";
     apisixv1.Key := "123456";
     apisixv1.Status := 1 |}.

Definition ssl_bar : apisixv1.Ssl :=
  {| apisixv1.ID := "helm_bar";
     apisixv1.Snis := [ "bar.api6.com" ];
     apisixv1.Cert := "root";
     apisixv1.Key := "123456";
     apisixv1.Status := 1 |}.

Definition tls_key (obj : ingress.object) : string * option error :=
  match obj with
  | ingress.ApisixTlsPtr tls =>
      (configv1.tls_Namespace tls ++ "/" ++ configv1.tls_Name tls, None)
  | ingress.DeletedFinalStateUnknown key _ => (key, None)
  | ingress.OtherObject => ("", Some (OtherError "object has no meta"))
  end.

Definition tls_controller
    (cached : option configv1.ApisixTls * option error)
    (secret_lister : lister translation_ssl.Secret)
    (gateway : option error) : ingress.Controller :=
  {| ingress.apisixTlsLister := fun _ _ => cached;
     ingress.TranslateSSL := translation_ssl.TranslateSSL secret_lister;
     ingress.syncSSL := fun _ _ _ => gateway;
     ingress.namespaceWatching := fun _ => true;
     ingress.SplitMetaNamespaceKey := fun _ => (("helm", "foo"), None);
     ingress.MetaNamespaceKeyFunc := tls_key;
     ingress.DeletionHandlingMetaNamespaceKeyFunc := tls_key |}.

Definition tls_event (ty : types.EventType) (tombstone : option configv1.ApisixTls)
  : types.Event :=
  {| types.Type_ := ty; types.Object := "helm/foo"; types.Tombstone := tombstone |}.

Definition tls_start : ingress.state :=
  {| ingress.secretSSLMap := ∅; ingress.trace := [] |}.

(** An upstream controller over a cache that answers every lookup with
    [cached]; conversion yields one default upstream. *)
Definition upstream_at (version : string) : configv1.ApisixUpstream :=
  {| configv1.au_ResourceVersion := version;
     configv1.Spec := {| configv1.spec_Config := top_config;
                         configv1.PortLevelSettings := [] |} |}.

Definition upstream_key (obj : controller.object) : string * option error :=
  match obj with
  | controller.ApisixUpstreamPtr _ => ("ns/svc", None)
  | controller.DeletedFinalStateUnknown key _ => (key, None)
  | _ => ("", Some (OtherError "object has no meta"))
  end.

Definition upstream_controller
    (cached : option configv1.ApisixUpstream * option error)
  : controller.ApisixUpstreamController :=
  {| controller.apisixUpstreamList := fun _ _ => cached;
     controller.Convert := fun _ => [ default_upstream ];
     controller.Remove := fun _ => None;
     controller.Solver := fun _ => None;
     controller.SplitMetaNamespaceKey := fun _ => (("ns", "svc"), None);
     controller.MetaNamespaceKeyFunc := upstream_key;
     controller.DeletionHandlingMetaNamespaceKeyFunc := upstream_key |}.

Definition upstream_item (ope : string) (old : option configv1.ApisixUpstream)
  : controller.UpstreamQueueObj :=
  {| controller.Key := "ns/svc"; controller.OldObj := old; controller.Ope := ope |}.

End demo.

(** ** The worker loops *)

Module workers.

(** [runWorker] of the TLS controller over the items that
    [workqueue.Get] hands out, in order; the queue reports shutdown after
    the last one.  A panic ends the goroutine. *)
Fixpoint tls_runWorker (c : ingress.Controller) (items : list types.Event)
    (s : ingress.state) : outcome unit * ingress.state :=
  match items with
  | [] => (Return tt, s)
  | obj :: rest =>
      match ingress.runWorker c obj s with
      | (Return _, s) => tls_runWorker c rest s
      | (Fail err, s) => (Fail err, s)
      | (Panic p, s) => (Panic p, s)
      end
  end.

(** [runWorker] of the upstream controller,
    [for c.processNextWorkItem() {}], over the items handed out; on
    shutdown [processNextWorkItem] returns false. *)
Fixpoint upstream_runWorker (c : controller.ApisixUpstreamController)
    (items : list controller.object) (s : controller.state)
  : outcome unit * controller.state :=
  match items with
  | [] => (Return tt, s)
  | obj :: rest =>
      match controller.processNextWorkItem c obj s with
      | (Return true, s) => upstream_runWorker c rest s
      | (Return false, s) => (Return tt, s)
      | (Fail err, s) => (Fail err, s)
      | (Panic p, s) => (Panic p, s)
      end
  end.

(** Counting the queue calls in a trace. *)
Definition tls_is_Done (e : ingress.effect) : bool :=
  match e with ingress.WorkqueueDone _ => true | _ => false end.
Definition tls_is_Forget (e : ingress.effect) : bool :=
  match e with ingress.WorkqueueForget _ => true | _ => false end.
Definition tls_is_AddRateLimited (e : ingress.effect) : bool :=
  match e with ingress.WorkqueueAddRateLimited _ => true | _ => false end.
Definition tls_is_CallSyncSSL (e : ingress.effect) : bool :=
  match e with ingress.CallSyncSSL _ _ _ => true | _ => false end.

Definition tls_is_queue_call (e : ingress.effect) : bool :=
  tls_is_Done e || tls_is_Forget e || tls_is_AddRateLimited e.

(** What the worker does with an item after the reconcile: [Done], then
    [Forget] when the reconcile succeeded, [AddRateLimited] when it
    failed. *)
Definition tls_item_calls (obj : types.Event) (succeeded : bool) : list ingress.effect :=
  [ ingress.WorkqueueDone obj;
    if succeeded then ingress.WorkqueueForget obj
    else ingress.WorkqueueAddRateLimited obj ].

Definition upstream_is_Done (e : controller.effect) : bool :=
  match e with controller.WorkqueueDone _ => true | _ => false end.
Definition upstream_is_Forget (e : controller.effect) : bool :=
  match e with controller.WorkqueueForget _ => true | _ => false end.
Definition upstream_is_AddRateLimited (e : controller.effect) : bool :=
  match e with controller.WorkqueueAddRateLimited _ => true | _ => false end.

Definition upstream_is_queue_call (e : controller.effect) : bool :=
  upstream_is_Done e || upstream_is_Forget e || upstream_is_AddRateLimited e.

(** What [processNextWorkItem] does with an item: [Forget] or
    [AddRateLimited], then the deferred [Done]. *)
Definition upstream_item_calls (obj : controller.object) (forgotten : bool)
  : list controller.effect :=
  [ if forgotten then controller.WorkqueueForget obj
    else controller.WorkqueueAddRateLimited obj;
    controller.WorkqueueDone obj ].

Definition count {A : Type} (f : A -> bool) (l : list A) : nat :=
  List.length (List.filter f l).

End workers.

(** ** Predicates on the secret cross-reference index *)

Module index.

(** Every ssl of the bucket is stored under its own ID. *)
Definition bucket_keyed (bucket : gmap string apisixv1.Ssl) : Prop :=
  map_Forall (fun id ssl => apisixv1.ID ssl = id) bucket.

Definition index_keyed (m : gmap string (gmap string apisixv1.Ssl)) : Prop :=
  map_Forall (fun _ bucket => bucket_keyed bucket) m.

(** What [syncSecretSSL] does to the bucket of its key, seen as a
    function on the optional bucket. *)
Definition bucket_op (ssl : apisixv1.Ssl) (event : types.EventType)
    (bucket : option (gmap string apisixv1.Ssl)) : option (gmap string apisixv1.Ssl) :=
  match bucket with
  | Some sslMap =>
      match event with
      | types.EventDelete => Some (delete (apisixv1.ID ssl) sslMap)
      | _ => Some (<[apisixv1.ID ssl := ssl]> sslMap)
      end
  | None =>
      if decide (event ≠ types.EventDelete)
      then Some {[apisixv1.ID ssl := ssl]}
      else None
  end.

(** The index key that [sync] derives from a secret reference:
    [tls.Spec.Secret.Namespace + "_" + tls.Spec.Secret.Name]. *)
Definition secretKey (ref : configv1.ApisixSecret) : string :=
  configv1.Namespace ref ++ "_" ++ configv1.Name ref.

(** The string has no underscore (as a Kubernetes namespace, a DNS
    label, never has). *)
Fixpoint no_underscore (s : string) : bool :=
  match s with
  | EmptyString => true
  | String c rest => negb (Ascii.eqb c "_"%char) && no_underscore rest
  end.

End index.

(** ** The route client of the gateway admin API (package apisix) *)

Module apisix.

(** Modelled from the spec: the gateway [Route] type is declared
    outside src/; the client reads the pointer fields ID, Name, Path,
    Host, ServiceId, Group and Plugins of it. *)
Record Route := {
  ID : option string;
  Name : option string;
  Path : option string;
  Host : option string;
  ServiceId : option string;
  Group : option string;
  Plugins : option string
}.

Record routeReqBody := {
  Desc : option string;
  URI : option string;
  body_Host : option string;
  body_ServiceId : option string;
  body_Plugins : option string
}.

(** An item of a list or create response, with its key and raw value. *)
Record item := { Key : string; Value : string }.

(** The requests that reach the admin API. *)
Inductive request :=
| ListResource (url : string)
| CreateResource (url : string) (data : string)
| DeleteResource (url : string)
| UpdateResource (url : string) (body : string).

(** What the client uses without declaring it: the [stub] with its base
    URL and its four resource calls, the conversion [item.route(group)],
    and [json.Marshal] on a request body. *)
Record stub := {
  baseURL : string;
  listResource : string -> outcome (list item);
  createResource : string -> string -> outcome item;
  deleteResource : string -> option error;
  updateResource : string -> string -> option error;
  route : item -> string -> outcome Route;
  Marshal : routeReqBody -> outcome string
}.

Record routeClient := { url : string; stub_ : stub }.

Definition newRouteClient (st : stub) : routeClient :=
  {| url := baseURL st ++ "/routes"; stub_ := st |}.

(** The loop of [List] over the items, appending to [items]. *)
Fixpoint rangeItems (st : stub) (group : string) (routeItems : list item)
    (items : list Route) : outcome (list Route) :=
  match routeItems with
  | [] => Return items
  | it :: rest =>
      r ← route st it group;
      rangeItems st group rest (items ++ [r])
  end.

Definition List (r : routeClient) (group : string) (s : list request)
  : outcome (list Route) * list request :=
  let s := (s ++ [ListResource (url r)])%list in
  match listResource (stub_ r) (url r) with
  | Fail err => (Fail err, s)
  | Panic p => (Panic p, s)
  | Return routeItems => (rangeItems (stub_ r) group routeItems [], s)
  end.

Definition body_of (obj : Route) : routeReqBody :=
  {| Desc := Name obj;
     URI := Path obj;
     body_Host := Host obj;
     body_ServiceId := ServiceId obj;
     body_Plugins := Plugins obj |}.

(** The log statement at the head of [Create] reads [*obj.Host]. *)
Definition Create (r : routeClient) (obj : Route) (s : list request)
  : outcome Route * list request :=
  match Host obj with
  | None => (Panic NilPointerDereference, s)
  | Some _ =>
      match Marshal (stub_ r) (body_of obj) with
      | Fail err => (Fail err, s)
      | Panic p => (Panic p, s)
      | Return data =>
          let s := (s ++ [CreateResource (url r) data])%list in
          match createResource (stub_ r) (url r) data with
          | Fail err => (Fail err, s)
          | Panic p => (Panic p, s)
          | Return resp =>
              let group := match Group obj with Some g => g | None => "" end in
              (route (stub_ r) resp group, s)
          end
      end
  end.

(** The log statement at the head of [Delete] reads [*obj.ID]. *)
Definition Delete (r : routeClient) (obj : Route) (s : list request)
  : outcome unit * list request :=
  match ID obj with
  | None => (Panic NilPointerDereference, s)
  | Some id =>
      let u := url r ++ "/" ++ id in
      let s := (s ++ [DeleteResource u])%list in
      match deleteResource (stub_ r) u with
      | Some err => (Fail err, s)
      | None => (Return tt, s)
      end
  end.

(** The log statement at the head of [Update] reads [*obj.ID]. *)
Definition Update (r : routeClient) (obj : Route) (s : list request)
  : outcome unit * list request :=
  match ID obj with
  | None => (Panic NilPointerDereference, s)
  | Some id =>
      match Marshal (stub_ r) (body_of obj) with
      | Fail err => (Fail err, s)
      | Panic p => (Panic p, s)
      | Return body =>
          let u := url r ++ "/" ++ id in
          let s := (s ++ [UpdateResource u body])%list in
          match updateResource (stub_ r) u body with
          | Some err => (Fail err, s)
          | None => (Return tt, s)
          end
      end
  end.

End apisix.

(** ** Slices and subsets *)

Module slices.

(** An endpoint of a slice that has no address. *)
Definition no_address (ep : discoveryv1beta1.Endpoint) : bool :=
  match discoveryv1beta1.Addresses ep with
  | [] => true
  | _ :: _ => false
  end.

(** The slice that carries what one subset of an Endpoints object
    carries: an endpoint per address, and the ports of the subset with
    name and number set. *)
Definition slice_port (p : corev1.EndpointPort) : discoveryv1beta1.EndpointPort :=
  {| discoveryv1beta1.Name := Some (corev1.ep_Name p);
     discoveryv1beta1.Port := Some (corev1.ep_Port p) |}.

Definition slice_endpoint (addr : corev1.EndpointAddress) : discoveryv1beta1.Endpoint :=
  {| discoveryv1beta1.Addresses := [ corev1.IP addr ] |}.

Definition slice_of_subset (namespace name : string) (subset : corev1.EndpointSubset)
  : discoveryv1beta1.EndpointSlice :=
  {| discoveryv1beta1.es_Namespace := namespace;
     discoveryv1beta1.es_Name := name;
     discoveryv1beta1.Endpoints := List.map slice_endpoint (corev1.Addresses subset);
     discoveryv1beta1.Ports := List.map slice_port (corev1.ss_Ports subset) |}.

End slices.

(** ** Resource versions as numbers *)

Module versions.

(** A resource version is, to the clients of the API server, a token;
    the server issues it as the decimal numeral of a counter.  The order
    of two such tokens as numbers: *)
Definition is_digit (c : ascii) : bool :=
  ((48 <=? N_of_ascii c) && (N_of_ascii c <=? 57))%N.

Fixpoint is_numeral (s : string) : bool :=
  match s with
  | EmptyString => true
  | String c rest => is_digit c && is_numeral rest
  end.

Definition digit_value (c : ascii) : N := (N_of_ascii c - 48)%N.

Fixpoint numeral_value (s : string) : N :=
  match s with
  | EmptyString => 0%N
  | String c rest =>
      (digit_value c * 10 ^ N.of_nat (String.length rest) + numeral_value rest)%N
  end.

(** [older a b]: version [a] was issued before version [b]. *)
Definition older (a b : string) : bool :=
  (numeral_value a <? numeral_value b)%N.

End versions.

(** ** Node resolution from Endpoints *)

Section translate_nodes.
Import translation nodes_spec.

Lemma findServicePort_find ports port :
  findServicePort ports port = List.find (fun p => corev1.sp_Port p =? port) ports.
Proof.
  induction ports as [|p ports IH]; simpl; [done|].
  by destruct (corev1.sp_Port p =? port).
Qed.

Lemma findServicePort_Some ports port svcPort :
  findServicePort ports port = Some svcPort ->
  svcPort ∈ ports /\ corev1.sp_Port svcPort = port.
Proof.
  induction ports as [|p ports IH]; simpl; [done|].
  destruct (Z.eqb_spec (corev1.sp_Port p) port) as [Heq|Hne].
  - intros [= <-]. split; [apply list_elem_of_here | done].
  - intros H. destruct (IH H) as [Hin Hp]. split; [by apply list_elem_of_further | done].
Qed.

Lemma findServicePort_None ports port :
  findServicePort ports port = None <->
  (forall p, p ∈ ports -> corev1.sp_Port p <> port).
Proof.
  induction ports as [|p ports IH]; simpl.
  - split; [|done]. intros _ q Hq. by apply elem_of_nil in Hq.
  - destruct (Z.eqb_spec (corev1.sp_Port p) port) as [Heq|Hne].
    + split; [done|]. intros H. exfalso. apply (H p); [apply list_elem_of_here | done].
    + rewrite IH. split.
      * intros H q Hq. apply elem_of_cons in Hq as [->|Hq]; [done | by apply H].
      * intros H q Hq. apply H. by apply list_elem_of_further.
Qed.

Lemma findEndpointPort_find ports name :
  findEndpointPort ports name
  = List.find (fun p => String.eqb (corev1.ep_Name p) name) ports.
Proof.
  induction ports as [|p ports IH]; simpl; [done|].
  by destruct (String.eqb (corev1.ep_Name p) name).
Qed.

Lemma findEndpointPort_Some ports name epPort :
  findEndpointPort ports name = Some epPort ->
  epPort ∈ ports /\ corev1.ep_Name epPort = name.
Proof.
  induction ports as [|p ports IH]; simpl; [done|].
  destruct (String.eqb_spec (corev1.ep_Name p) name) as [Heq|Hne].
  - intros [= <-]. split; [apply list_elem_of_here | done].
  - intros H. destruct (IH H) as [Hin Hp]. split; [by apply list_elem_of_further | done].
Qed.

Lemma findEndpointPort_None ports name :
  findEndpointPort ports name = None <->
  (forall p, p ∈ ports -> corev1.ep_Name p <> name).
Proof.
  induction ports as [|p ports IH]; simpl.
  - split; [|done]. intros _ q Hq. by apply elem_of_nil in Hq.
  - destruct (String.eqb_spec (corev1.ep_Name p) name) as [Heq|Hne].
    + split; [done|]. intros H. exfalso. apply (H p); [apply list_elem_of_here | done].
    + rewrite IH. split.
      * intros H q Hq. apply elem_of_cons in Hq as [->|Hq]; [done | by apply H].
      * intros H q Hq. apply H. by apply list_elem_of_further.
Qed.

(** The address loop appends, in order, one node per address. *)
Lemma appendAddresses_map epPort addrs nodes :
  appendAddresses epPort addrs nodes = (nodes ++ List.map (node_at epPort) addrs)%list.
Proof.
  revert nodes. induction addrs as [|addr addrs IH]; intros nodes; simpl.
  - by rewrite app_nil_r.
  - rewrite IH, <- app_assoc. done.
Qed.

(** The subset loop is the flat map of the per-subset rule. *)
Lemma rangeSubsets_flat_map svcPort subsets nodes :
  rangeSubsets svcPort subsets nodes
  = (nodes ++ nodes_of_subsets (corev1.sp_Name svcPort) subsets)%list.
Proof.
  revert nodes. induction subsets as [|subset subsets IH]; intros nodes; simpl.
  - by rewrite app_nil_r.
  - unfold nodes_of_subset at 1. rewrite <- findEndpointPort_find.
    destruct (findEndpointPort _ _) as [epPort|].
    + rewrite IH, appendAddresses_map, <- app_assoc. done.
    + by rewrite IH.
Qed.

Lemma nodes_of_subset_skip name subset :
  (forall p, p ∈ corev1.ss_Ports subset -> corev1.ep_Name p <> name) ->
  nodes_of_subset name subset = [].
Proof.
  intros H. apply findEndpointPort_None in H.
  unfold nodes_of_subset. by rewrite <- findEndpointPort_find, H.
Qed.

Lemma nodes_of_subset_emit name subset :
  (exists p, p ∈ corev1.ss_Ports subset /\ corev1.ep_Name p = name) ->
  exists epPort, epPort ∈ corev1.ss_Ports subset /\ corev1.ep_Name epPort = name /\
    nodes_of_subset name subset = List.map (node_at epPort) (corev1.Addresses subset).
Proof.
  intros (p & Hp & Hname). unfold nodes_of_subset. rewrite <- findEndpointPort_find.
  destruct (findEndpointPort _ _) as [epPort|] eqn:Hfind.
  - apply findEndpointPort_Some in Hfind as [Hin Hn]. by exists epPort.
  - exfalso. eapply findEndpointPort_None in Hfind; [by apply Hfind | done].
Qed.

End translate_nodes.

Section translate_nodes_claims.
Import translation nodes_spec.

(** C4.  With the Service of the Endpoints object looked up, node
    resolution fails with the structured error of field
    [service.spec.ports] exactly when no port of that Service has the
    target number.  Otherwise it returns, without error, the nodes of the
    subsets taken in order under the name of the matched service port: a
    subset with no port of that name contributes nothing (so the list may
    be empty), a subset with one contributes one node of weight 100 per
    address. *)
Theorem TranslateUpstreamNodes_ports_and_subsets
    (t : translator) (endpoints : corev1.Endpoints) (port : Z) (svc : corev1.Service) :
  ServiceLister (opts t) (corev1.Namespace endpoints) (corev1.Name endpoints)
    = (Some svc, None) ->
  let ports := corev1.Ports (corev1.Spec svc) in
  ((exists te, TranslateUpstreamNodes t endpoints port = Fail (TranslateError te)
               /\ field te = "service.spec.ports")
   <-> (forall p, p ∈ ports -> corev1.sp_Port p <> port))
  /\ ((exists p, p ∈ ports /\ corev1.sp_Port p = port) ->
      exists svcPort, svcPort ∈ ports /\ corev1.sp_Port svcPort = port /\
        TranslateUpstreamNodes t endpoints port
        = Return (nodes_of_subsets (corev1.sp_Name svcPort) (corev1.Subsets endpoints))
        /\ forall subset, subset ∈ corev1.Subsets endpoints ->
             ((forall p, p ∈ corev1.ss_Ports subset ->
                         corev1.ep_Name p <> corev1.sp_Name svcPort) ->
              nodes_of_subset (corev1.sp_Name svcPort) subset = [])
             /\ ((exists p, p ∈ corev1.ss_Ports subset /\
                            corev1.ep_Name p = corev1.sp_Name svcPort) ->
                 exists epPort, epPort ∈ corev1.ss_Ports subset /\
                   corev1.ep_Name epPort = corev1.sp_Name svcPort /\
                   nodes_of_subset (corev1.sp_Name svcPort) subset
                   = List.map (fun addr => {| apisixv1.IP := corev1.IP addr;
                                              apisixv1.Port := corev1.ep_Port epPort;
                                              apisixv1.Weight := 100 |})
                              (corev1.Addresses subset))).
Proof.
  intros Hsvc ports. unfold TranslateUpstreamNodes. rewrite Hsvc. simpl.
  fold ports. destruct (findServicePort ports port) as [svcPort|] eqn:Hfind.
  - pose proof (findServicePort_Some _ _ _ Hfind) as [Hin Hport]. split.
    + split.
      * intros (te & [=] & _).
      * intros Hnone. exfalso. by apply (Hnone svcPort).
    + intros _. exists svcPort. split_and!; [done | done | |].
      * by rewrite rangeSubsets_flat_map.
      * intros subset _. split.
        -- apply nodes_of_subset_skip.
        -- apply nodes_of_subset_emit.
  - pose proof (proj1 (findServicePort_None _ _) Hfind) as Hnone. split.
    + split; [done|]. intros _. eexists. split; [done | done].
    + intros (p & Hp & Heq). exfalso. by apply (Hnone p).
Qed.

(** The statement above at service [ns/svc] and port 80. *)
Lemma TranslateUpstreamNodes_ports_and_subsets_witness :
  ServiceLister (opts demo.t_endpoints)
    (corev1.Namespace demo.endpoints) (corev1.Name demo.endpoints)
    = (Some demo.svc, None)
  /\ exists svcPort,
       svcPort ∈ corev1.Ports (corev1.Spec demo.svc) /\ corev1.sp_Port svcPort = 80 /\
       TranslateUpstreamNodes demo.t_endpoints demo.endpoints 80
       = Return (nodes_of_subsets (corev1.sp_Name svcPort) (corev1.Subsets demo.endpoints)).
Proof.
  split; [reflexivity|].
  destruct (TranslateUpstreamNodes_ports_and_subsets
              demo.t_endpoints demo.endpoints 80 demo.svc eq_refl) as [_ H].
  destruct H as (svcPort & Hin & Hport & Heq & _).
  - eexists. split; [apply list_elem_of_further, list_elem_of_here | reflexivity].
  - exists svcPort. split_and!; [exact Hin | exact Hport | exact Heq].
Defined.

End translate_nodes_claims.

(** ** The port carried by a resolved node *)

Section node_port.
Import translation nodes_spec.

Lemma nodes_of_subsets_elem name subsets n :
  n ∈ nodes_of_subsets name subsets ->
  exists subset epPort addr,
    subset ∈ subsets
    /\ List.find (fun p => String.eqb (corev1.ep_Name p) name) (corev1.ss_Ports subset)
       = Some epPort
    /\ addr ∈ corev1.Addresses subset
    /\ n = node_at epPort addr.
Proof.
  unfold nodes_of_subsets. rewrite list_elem_of_In, in_flat_map.
  intros (subset & Hsub & Hn). unfold nodes_of_subset in Hn.
  destruct (List.find _ _) as [epPort|] eqn:Hfind; [|done].
  apply in_map_iff in Hn as (addr & <- & Haddr).
  exists subset, epPort, addr. by rewrite !list_elem_of_In.
Qed.

(** The slice's port search returns the first port of the name, and only
    after every port before it was seen to carry another name. *)
Lemma findSlicePort_Some ports name epPort :
  findSlicePort ports name = Return (Some epPort) ->
  List.find (fun p => bool_decide (discoveryv1beta1.Name p = Some name)) ports
  = Some epPort.
Proof.
  induction ports as [|p ports IH]; simpl; [done|].
  destruct (discoveryv1beta1.Name p) as [n|] eqn:Hn; simpl; [|done].
  destruct (String.eqb_spec n name) as [->|Hne].
  - intros [= <-]. by rewrite bool_decide_eq_true_2.
  - intros H. rewrite bool_decide_eq_false_2; [by apply IH | congruence].
Qed.

Lemma appendSliceAddresses_Return epPort addrs nodes res :
  appendSliceAddresses epPort addrs nodes = Return res ->
  exists new, res = (nodes ++ new)%list /\
    forall n, n ∈ new ->
      exists addr p, addr ∈ addrs /\ discoveryv1beta1.Port epPort = Some p
                     /\ n = slice_node addr p.
Proof.
  revert nodes. induction addrs as [|addr addrs IH]; intros nodes; simpl.
  - intros [= <-]. exists []. split; [by rewrite app_nil_r|].
    intros n Hn. by apply elem_of_nil in Hn.
  - destruct (discoveryv1beta1.Port epPort) as [p|] eqn:Hp; simpl; [|done].
    intros H. apply IH in H as (new & -> & Hnew).
    exists (slice_node addr p :: new). split; [by rewrite <- app_assoc|].
    intros n Hn. apply elem_of_cons in Hn as [->|Hn].
    + exists addr, p. split_and!; [apply list_elem_of_here | done | done].
    + destruct (Hnew n Hn) as (a & q & Ha & Hq & ->).
      exists a, q. split_and!; [by apply list_elem_of_further | done | done].
Qed.

Lemma rangeEndpoints_Return svcPort ports eps nodes res :
  rangeEndpoints svcPort ports eps nodes = Return res ->
  exists new, res = (nodes ++ new)%list /\
    forall n, n ∈ new ->
      exists ep epPort addr p,
        ep ∈ eps
        /\ List.find (fun q => bool_decide (discoveryv1beta1.Name q
                                           = Some (corev1.sp_Name svcPort))) ports
           = Some epPort
        /\ addr ∈ discoveryv1beta1.Addresses ep
        /\ discoveryv1beta1.Port epPort = Some p
        /\ n = slice_node addr p.
Proof.
  revert nodes. induction eps as [|ep eps IH]; intros nodes; simpl.
  - intros [= <-]. exists []. split; [by rewrite app_nil_r|].
    intros n Hn. by apply elem_of_nil in Hn.
  - destruct (findSlicePort ports (corev1.sp_Name svcPort)) as [[epPort|]| |] eqn:Hfind;
      simpl; [| |done|done].
    + apply findSlicePort_Some in Hfind.
      destruct (appendSliceAddresses epPort _ nodes) as [nodes'| |] eqn:Happ;
        simpl; [|done|done].
      apply appendSliceAddresses_Return in Happ as (new1 & -> & Hnew1).
      intros H. apply IH in H as (new2 & -> & Hnew2).
      exists (new1 ++ new2)%list. split; [by rewrite app_assoc|].
      intros n Hn. apply elem_of_app in Hn as [Hn|Hn].
      * destruct (Hnew1 n Hn) as (addr & p & Ha & Hp & ->).
        exists ep, epPort, addr, p. split_and!; [apply list_elem_of_here|done..].
      * destruct (Hnew2 n Hn) as (ep' & epPort' & addr & p & He & Hf & Ha & Hp & ->).
        exists ep', epPort', addr, p. split_and!; [by apply list_elem_of_further|done..].
    + intros H. apply IH in H as (new & -> & Hnew).
      exists new. split; [done|].
      intros n Hn. destruct (Hnew n Hn) as (ep' & epPort' & addr & p & He & Hrest).
      exists ep', epPort', addr, p. split; [by apply list_elem_of_further | done].
Qed.

(** C10.  Every node that node resolution returns carries the port
    number of the matched endpoint port: for Endpoints, the first port of
    the node's subset that bears the name of the matched service port; for
    an EndpointSlice, the first port of the slice that bears that name.
    The requested number only selects the service port, whose name selects
    the endpoint port. *)
Theorem node_port_is_endpoint_port (t : translator) (port : Z) :
  (forall endpoints nodes n,
     TranslateUpstreamNodes t endpoints port = Return nodes ->
     n ∈ nodes ->
     exists svc svcPort subset epPort addr,
       ServiceLister (opts t) (corev1.Namespace endpoints) (corev1.Name endpoints)
         = (Some svc, None)
       /\ List.find (fun p => corev1.sp_Port p =? port) (corev1.Ports (corev1.Spec svc))
          = Some svcPort
       /\ subset ∈ corev1.Subsets endpoints
       /\ List.find (fun p => String.eqb (corev1.ep_Name p) (corev1.sp_Name svcPort))
                    (corev1.ss_Ports subset) = Some epPort
       /\ addr ∈ corev1.Addresses subset
       /\ apisixv1.IP n = corev1.IP addr
       /\ apisixv1.Port n = corev1.ep_Port epPort)
  /\ (forall endpoints nodes n,
        TranslateUpstreamNodesFromEndpointSlice t endpoints port = Return nodes ->
        n ∈ nodes ->
        exists svc svcPort ep epPort addr,
          ServiceLister (opts t) (discoveryv1beta1.es_Namespace endpoints)
                        (discoveryv1beta1.es_Name endpoints) = (Some svc, None)
          /\ List.find (fun p => corev1.sp_Port p =? port) (corev1.Ports (corev1.Spec svc))
             = Some svcPort
          /\ ep ∈ discoveryv1beta1.Endpoints endpoints
          /\ List.find (fun q => bool_decide (discoveryv1beta1.Name q
                                             = Some (corev1.sp_Name svcPort)))
                       (discoveryv1beta1.Ports endpoints) = Some epPort
          /\ addr ∈ discoveryv1beta1.Addresses ep
          /\ apisixv1.IP n = addr
          /\ discoveryv1beta1.Port epPort = Some (apisixv1.Port n)).
Proof.
  split.
  - intros endpoints nodes n Hret Hn. unfold TranslateUpstreamNodes in Hret.
    destruct (ServiceLister _ _ _) as [[svc|] [err|]] eqn:Hsvc; simpl in Hret; try done.
    destruct (findServicePort _ port) as [svcPort|] eqn:Hfind; [|done].
    injection Hret as <-. rewrite rangeSubsets_flat_map in Hn. simpl in Hn.
    apply nodes_of_subsets_elem in Hn as (subset & epPort & addr & Hs & He & Ha & ->).
    rewrite findServicePort_find in Hfind.
    exists svc, svcPort, subset, epPort, addr. by split_and!.
  - intros endpoints nodes n Hret Hn. unfold TranslateUpstreamNodesFromEndpointSlice in Hret.
    destruct (ServiceLister _ _ _) as [[svc|] [err|]] eqn:Hsvc; simpl in Hret; try done.
    destruct (findServicePort _ port) as [svcPort|] eqn:Hfind; [|done].
    apply rangeEndpoints_Return in Hret as (new & -> & Hnew). simpl in Hn.
    destruct (Hnew n Hn) as (ep & epPort & addr & p & He & Hf & Ha & Hp & ->).
    rewrite findServicePort_find in Hfind.
    exists svc, svcPort, ep, epPort, addr. by split_and!.
Qed.

(** The statement above where the service declares port 80 and the
    endpoints serve it on 8080: the node carries 8080. *)
Lemma node_port_is_endpoint_port_witness :
  let n := {| apisixv1.IP := "10.0.0.6"; apisixv1.Port := 8080; apisixv1.Weight := 100 |} in
  exists nodes,
    TranslateUpstreamNodes demo.t_endpoints demo.endpoints 80 = Return nodes
    /\ n ∈ nodes
    /\ exists epPort,
         epPort ∈ [ {| corev1.ep_Name := "http"; corev1.ep_Port := 8080 |} ]
         /\ apisixv1.Port n = corev1.ep_Port epPort
         /\ apisixv1.Port n <> 80.
Proof.
  intros n. eexists. split; [reflexivity|].
  assert (Hn : n ∈ [ {| apisixv1.IP := "10.0.0.5"; apisixv1.Port := 8080;
                        apisixv1.Weight := 100 |}; n ])
    by apply list_elem_of_further, list_elem_of_here.
  split; [exact Hn|].
  destruct (proj1 (node_port_is_endpoint_port demo.t_endpoints 80)
              demo.endpoints _ n eq_refl Hn)
    as (svc & svcPort & subset & epPort & addr & Hsvc & Hsp & Hs & He & Ha & Hip & Hport).
  exists epPort. split_and!; [|exact Hport|done].
  injection Hsvc as <-. injection Hsp as <-.
  simpl in Hs. apply elem_of_cons in Hs as [->|Hs].
  - injection He as <-. apply list_elem_of_here.
  - apply list_elem_of_singleton in Hs as ->. discriminate He.
Defined.

End node_port.

(** ** Resolution of a full upstream *)

Section translate_upstream.
Import translation.

(** The override the loop over the port-level settings selects. *)
Lemma selectConfig_find upsCfg settings port :
  selectConfig upsCfg settings port
  = match List.find (fun pls => configv1.Port pls =? port) settings with
    | Some pls => configv1.pls_Config pls
    | None => upsCfg
    end.
Proof.
  induction settings as [|pls settings IH]; simpl; [done|].
  by destruct (configv1.Port pls =? port).
Qed.

Lemma set_Nodes_fields nodes ups :
  apisixv1.Nodes (apisixv1.set_Nodes nodes ups) = nodes
  /\ apisixv1.Scheme (apisixv1.set_Nodes nodes ups) = apisixv1.Scheme ups
  /\ apisixv1.LoadBalancer (apisixv1.set_Nodes nodes ups) = apisixv1.LoadBalancer ups
  /\ apisixv1.HealthCheck (apisixv1.set_Nodes nodes ups) = apisixv1.HealthCheck ups
  /\ apisixv1.Retries (apisixv1.set_Nodes nodes ups) = apisixv1.Retries ups
  /\ apisixv1.Timeout (apisixv1.set_Nodes nodes ups) = apisixv1.Timeout ups.
Proof. by split_and!. Qed.

(** C6.  Once the nodes are resolved: when the lister reports not-found
    for the upstream policy, the result is the default upstream with the
    nodes attached and no error; when the policy exists, the
    configuration translated is that of the first port-level override
    whose port is the requested one, the top-level configuration when no
    override has that port, and the nodes are attached to whatever that
    translation returns (its error is passed on unchanged). *)
Theorem TranslateUpstream_policy_or_default
    (E : Env) (t : translator) (namespace name : string) (port : Z)
    (nodes : list apisixv1.UpstreamNode) :
  resolveNodes E t namespace name port = Return nodes ->
  (forall au err,
     ApisixUpstreamLister (opts t) namespace name = (au, Some err) ->
     IsNotFound err = true ->
     TranslateUpstream E t namespace name port
       = Return (apisixv1.set_Nodes nodes (NewDefaultUpstream E))
     /\ apisixv1.Nodes (apisixv1.set_Nodes nodes (NewDefaultUpstream E)) = nodes)
  /\ (forall au,
        ApisixUpstreamLister (opts t) namespace name = (Some au, None) ->
        let upsCfg :=
          match List.find (fun pls => configv1.Port pls =? port)
                          (configv1.PortLevelSettings (configv1.Spec au)) with
          | Some pls => configv1.pls_Config pls
          | None => configv1.spec_Config (configv1.Spec au)
          end in
        match TranslateUpstreamConfig E upsCfg with
        | Return ups =>
            TranslateUpstream E t namespace name port
              = Return (apisixv1.set_Nodes nodes ups)
            /\ apisixv1.Nodes (apisixv1.set_Nodes nodes ups) = nodes
        | Fail err => TranslateUpstream E t namespace name port = Fail err
        | Panic p => TranslateUpstream E t namespace name port = Panic p
        end).
Proof.
  intros Hnodes. unfold TranslateUpstream. rewrite Hnodes. simpl. split.
  - intros au err Hget Hnf. by rewrite Hget, Hnf.
  - intros au Hget. rewrite Hget. simpl. rewrite selectConfig_find.
    by destruct (TranslateUpstreamConfig E _).
Qed.

(** The statement above with a policy that overrides port 80. *)
Lemma TranslateUpstream_policy_or_default_witness :
  let nodes :=
    [ {| apisixv1.IP := "10.0.0.5"; apisixv1.Port := 8080; apisixv1.Weight := 100 |};
      {| apisixv1.IP := "10.0.0.6"; apisixv1.Port := 8080; apisixv1.Weight := 100 |} ] in
  resolveNodes demo.env demo.t_policy "ns" "svc" 80 = Return nodes
  /\ TranslateUpstream demo.env demo.t_policy "ns" "svc" 80
     = Return {| apisixv1.Nodes := nodes;
                 apisixv1.Scheme := "grpc";
                 apisixv1.LoadBalancer := "chash";
                 apisixv1.HealthCheck := "active";
                 apisixv1.Retries := 3;
                 apisixv1.Timeout := 9 |}.
Proof.
  intros nodes. split; [reflexivity|].
  destruct (TranslateUpstream_policy_or_default
              demo.env demo.t_policy "ns" "svc" 80 nodes eq_refl) as [_ H].
  specialize (H demo.policy eq_refl). simpl in H.
  exact (proj1 H).
Defined.

End translate_upstream.

(** ** The endpoint mode *)

Section endpoint_mode.
Import translation.

Lemma nil_abort_only_bind {A B : Type} (o : outcome A) (f : A -> outcome B) :
  nil_abort_only o -> (forall a, nil_abort_only (f a)) -> nil_abort_only (o ≫= f).
Proof.
  intros Ho Hf p. destruct o as [a|err|q]; simpl.
  - apply Hf.
  - done.
  - intros [= <-]. by apply Ho.
Qed.

Lemma nil_abort_only_deref {A : Type} (x : option A) : nil_abort_only (deref x).
Proof. intros p. destruct x; simpl; [done|]. by intros [= <-]. Qed.

Lemma nil_abort_only_Return {A : Type} (a : A) : nil_abort_only (Return a).
Proof. by intros p. Qed.

Lemma nil_abort_only_Fail {A : Type} (err : error) : nil_abort_only (@Fail A err).
Proof. by intros p. Qed.

Lemma TranslateUpstreamNodes_abort t endpoints port :
  nil_abort_only (TranslateUpstreamNodes t endpoints port).
Proof.
  unfold TranslateUpstreamNodes.
  destruct (ServiceLister _ _ _) as [svc [err|]]; [apply nil_abort_only_Fail|].
  apply nil_abort_only_bind; [apply nil_abort_only_deref|].
  intros s. destruct (findServicePort _ _);
    [apply nil_abort_only_Return | apply nil_abort_only_Fail].
Qed.

Lemma findSlicePort_abort ports name : nil_abort_only (findSlicePort ports name).
Proof.
  induction ports as [|p ports IH]; simpl; [apply nil_abort_only_Return|].
  apply nil_abort_only_bind; [apply nil_abort_only_deref|].
  intros n. destruct (String.eqb n name); [apply nil_abort_only_Return | apply IH].
Qed.

Lemma appendSliceAddresses_abort epPort addrs nodes :
  nil_abort_only (appendSliceAddresses epPort addrs nodes).
Proof.
  revert nodes. induction addrs as [|addr addrs IH]; intros nodes; simpl;
    [apply nil_abort_only_Return|].
  apply nil_abort_only_bind; [apply nil_abort_only_deref|]. intros p. apply IH.
Qed.

Lemma rangeEndpoints_abort svcPort ports eps nodes :
  nil_abort_only (rangeEndpoints svcPort ports eps nodes).
Proof.
  revert nodes. induction eps as [|ep eps IH]; intros nodes; simpl;
    [apply nil_abort_only_Return|].
  apply nil_abort_only_bind; [apply findSlicePort_abort|].
  intros [epPort|]; [|apply IH].
  apply nil_abort_only_bind; [apply appendSliceAddresses_abort|]. intros ns. apply IH.
Qed.

Lemma TranslateUpstreamNodesFromEndpointSlice_abort t endpoints port :
  nil_abort_only (TranslateUpstreamNodesFromEndpointSlice t endpoints port).
Proof.
  unfold TranslateUpstreamNodesFromEndpointSlice.
  destruct (ServiceLister _ _ _) as [svc [err|]]; [apply nil_abort_only_Fail|].
  apply nil_abort_only_bind; [apply nil_abort_only_deref|].
  intros s. destruct (findServicePort _ _);
    [apply rangeEndpoints_abort | apply nil_abort_only_Fail].
Qed.

Lemma step_abort r : nil_abort_only (step r).
Proof. destruct r as [[err|] ups]; [apply nil_abort_only_Fail | apply nil_abort_only_Return]. Qed.

Lemma TranslateUpstreamConfig_abort E au : nil_abort_only (TranslateUpstreamConfig E au).
Proof.
  unfold TranslateUpstreamConfig.
  repeat (apply nil_abort_only_bind; [apply step_abort | intros ?]).
  apply nil_abort_only_Return.
Qed.

(** With a declared mode, the head of [TranslateUpstream] can abort on a
    nil pointer only. *)
Lemma resolveNodes_declared_mode E t namespace name port :
  EndpointMode_ (opts t) = EndpointsOnly \/ EndpointMode_ (opts t) = EndpointSliceOnly ->
  nil_abort_only (resolveNodes E t namespace name port).
Proof.
  intros Hmode. unfold resolveNodes.
  destruct (Z.eqb_spec (EndpointMode_ (opts t)) EndpointSliceOnly) as [Hs|Hs].
  - destruct (EndpointSlicesLister _ _ _) as [es [err|]]; [apply nil_abort_only_Fail|].
    apply nil_abort_only_bind; [apply nil_abort_only_deref|].
    intros e. apply TranslateUpstreamNodesFromEndpointSlice_abort.
  - destruct (Z.eqb_spec (EndpointMode_ (opts t)) EndpointsOnly) as [He|He].
    + destruct (EndpointsLister _ _ _) as [es [err|]]; [apply nil_abort_only_Fail|].
      apply nil_abort_only_bind; [apply nil_abort_only_deref|].
      intros e. apply TranslateUpstreamNodes_abort.
    + by destruct Hmode.
Qed.

Lemma resolveNodes_undeclared_mode E t namespace name port :
  EndpointMode_ (opts t) <> EndpointsOnly ->
  EndpointMode_ (opts t) <> EndpointSliceOnly ->
  resolveNodes E t namespace name port = Panic (PanicValue "not exists EndpointMode").
Proof.
  intros He Hs. unfold resolveNodes.
  destruct (Z.eqb_spec (EndpointMode_ (opts t)) EndpointSliceOnly); [done|].
  by destruct (Z.eqb_spec (EndpointMode_ (opts t)) EndpointsOnly).
Qed.

(** C9, as the code has it.  [NewTranslator] takes every options value,
    whatever its mode, and [TranslateUpstream] aborts with
    [not exists EndpointMode] exactly when the mode is neither
    [EndpointsOnly] nor [EndpointSliceOnly]: the unrecognized-mode branch
    is unreachable for the two declared modes and for those only. *)
Theorem TranslateUpstream_mode_abort
    (E : Env) (o : TranslatorOptions) (namespace name : string) (port : Z) :
  opts (NewTranslator o) = o
  /\ (TranslateUpstream E (NewTranslator o) namespace name port
        = Panic (PanicValue "not exists EndpointMode")
      <-> EndpointMode_ o <> EndpointsOnly /\ EndpointMode_ o <> EndpointSliceOnly).
Proof.
  split; [done|]. split.
  - intros Habort.
    destruct (decide (EndpointMode_ o = EndpointsOnly \/ EndpointMode_ o = EndpointSliceOnly))
      as [Hmode|Hmode]; [|tauto].
    exfalso.
    assert (Hnil : nil_abort_only (TranslateUpstream E (NewTranslator o) namespace name port)).
    { unfold TranslateUpstream.
      apply nil_abort_only_bind; [by apply resolveNodes_declared_mode|].
      intros nodes. destruct (ApisixUpstreamLister _ _ _) as [au [err|]].
      - destruct (IsNotFound err); [apply nil_abort_only_Return | apply nil_abort_only_Fail].
      - apply nil_abort_only_bind; [apply nil_abort_only_deref|]. intros a.
        apply nil_abort_only_bind; [apply TranslateUpstreamConfig_abort|]. intros u.
        apply nil_abort_only_Return. }
    by specialize (Hnil _ Habort).
  - intros [He Hs]. unfold TranslateUpstream.
    by rewrite resolveNodes_undeclared_mode.
Qed.

(** C9, as stated, fails: options with mode 2 are accepted by
    [NewTranslator], which returns a translator holding them, and
    translating with that translator aborts in the unrecognized-mode
    branch. *)
Lemma NewTranslator_accepts_undeclared_mode :
  let o := {| EndpointMode_ := 2;
              ServiceLister := demo.services;
              ApisixUpstreamLister := demo.no_upstream |} in
  EndpointMode_ (opts (NewTranslator o)) = 2
  /\ TranslateUpstream demo.env (NewTranslator o) "ns" "svc" 80
     = Panic (PanicValue "not exists EndpointMode").
Proof. by split. Qed.

End endpoint_mode.

(** ** The secret cross-reference index *)

Section secret_index.
Import ingress.

Implicit Types (m : gmap string (gmap string apisixv1.Ssl)) (ssl : apisixv1.Ssl).

(** An upsert leaves a bucket at the key that holds the ssl under its ID
    and everything else the bucket held. *)
Lemma syncSecretSSL_upsert key ssl event m :
  event <> types.EventDelete ->
  syncSecretSSL key ssl event m !! key
  = Some (<[apisixv1.ID ssl := ssl]> (default ∅ (m !! key))).
Proof.
  intros Hev. unfold syncSecretSSL. destruct (m !! key) as [sslMap|] eqn:Hm; simpl.
  - destruct event; [| |done]; by rewrite lookup_insert_eq.
  - rewrite decide_True by done. by rewrite lookup_insert_eq.
Qed.

(** A removal from an existing bucket deletes the one entry and stores
    the bucket back, also when it has become empty. *)
Lemma syncSecretSSL_remove key ssl m sslMap :
  m !! key = Some sslMap ->
  syncSecretSSL key ssl types.EventDelete m !! key
  = Some (delete (apisixv1.ID ssl) sslMap).
Proof.
  intros Hm. unfold syncSecretSSL. rewrite Hm. by rewrite lookup_insert_eq.
Qed.

Lemma syncSecretSSL_remove_absent key ssl m :
  m !! key = None -> syncSecretSSL key ssl types.EventDelete m = m.
Proof. intros Hm. unfold syncSecretSSL. by rewrite Hm. Qed.

(** No call touches the bucket of another secret. *)
Lemma syncSecretSSL_other key key' ssl event m :
  key <> key' -> syncSecretSSL key ssl event m !! key' = m !! key'.
Proof.
  intros Hne. unfold syncSecretSSL. destruct (m !! key) as [sslMap|].
  - destruct event; by rewrite lookup_insert_ne.
  - case_decide; [by rewrite lookup_insert_ne | done].
Qed.

(** C7.  After upserts for two ssl objects with distinct IDs under one
    secret identity, the bucket of that secret holds both.  Removing the
    first leaves a bucket without it in which every other ID, the second
    included, answers as before; the buckets of other secrets are as they
    were; and removing the second as well leaves the emptied bucket in
    the outer map: a bucket is still there, and it is the empty one when
    the secret had no bucket before. *)
Theorem syncSecretSSL_isolation key ssl1 ssl2 event1 event2 m :
  apisixv1.ID ssl1 <> apisixv1.ID ssl2 ->
  event1 <> types.EventDelete ->
  event2 <> types.EventDelete ->
  let m2 := syncSecretSSL key ssl2 event2 (syncSecretSSL key ssl1 event1 m) in
  let m3 := syncSecretSSL key ssl1 types.EventDelete m2 in
  let m4 := syncSecretSSL key ssl2 types.EventDelete m3 in
  (exists bucket2,
     m2 !! key = Some bucket2
     /\ bucket2 !! apisixv1.ID ssl1 = Some ssl1
     /\ bucket2 !! apisixv1.ID ssl2 = Some ssl2
     /\ exists bucket3,
          m3 !! key = Some bucket3
          /\ bucket3 !! apisixv1.ID ssl1 = None
          /\ bucket3 !! apisixv1.ID ssl2 = Some ssl2
          /\ forall id, id <> apisixv1.ID ssl1 -> bucket3 !! id = bucket2 !! id)
  /\ (forall key', key <> key' -> m3 !! key' = m !! key' /\ m4 !! key' = m !! key')
  /\ is_Some (m4 !! key)
  /\ (m !! key = None -> m4 !! key = Some ∅).
Proof.
  intros Hid Hev1 Hev2 m2 m3 m4.
  assert (Hm2 : m2 !! key
                = Some (<[apisixv1.ID ssl2 := ssl2]>
                          (<[apisixv1.ID ssl1 := ssl1]> (default ∅ (m !! key))))).
  { unfold m2. rewrite syncSecretSSL_upsert by done.
    by rewrite syncSecretSSL_upsert by done. }
  assert (Hm3 : m3 !! key
                = Some (delete (apisixv1.ID ssl1)
                          (<[apisixv1.ID ssl2 := ssl2]>
                             (<[apisixv1.ID ssl1 := ssl1]> (default ∅ (m !! key)))))).
  { unfold m3. by rewrite (syncSecretSSL_remove _ _ _ _ Hm2). }
  split_and!.
  - eexists. split; [exact Hm2|]. split_and!.
    + rewrite lookup_insert_ne by done. by rewrite lookup_insert_eq.
    + by rewrite lookup_insert_eq.
    + eexists. split; [exact Hm3|]. split_and!.
      * by rewrite lookup_delete_eq.
      * rewrite lookup_delete_ne by done. by rewrite lookup_insert_eq.
      * intros id Hne. by rewrite lookup_delete_ne.
  - intros key' Hne. unfold m4, m3, m2. by rewrite !syncSecretSSL_other.
  - unfold m4. by rewrite (syncSecretSSL_remove _ _ _ _ Hm3).
  - intros Hnone. unfold m4. rewrite (syncSecretSSL_remove _ _ _ _ Hm3).
    f_equal. rewrite Hnone. simpl. apply map_eq. intros id.
    rewrite lookup_empty.
    destruct (decide (id = apisixv1.ID ssl2)) as [->|Hne2]; [by rewrite lookup_delete_eq|].
    rewrite lookup_delete_ne by done.
    destruct (decide (id = apisixv1.ID ssl1)) as [->|Hne1]; [by rewrite lookup_delete_eq|].
    rewrite lookup_delete_ne by done.
    by rewrite !lookup_insert_ne.
Qed.

(** The statement above for two bindings of the secret
    [helm/test-atls], starting from the empty index. *)
Lemma syncSecretSSL_isolation_witness :
  let m2 := syncSecretSSL "helm_test-atls" demo.ssl_bar types.EventUpdate
              (syncSecretSSL "helm_test-atls" demo.ssl_foo types.EventAdd ∅) in
  let m3 := syncSecretSSL "helm_test-atls" demo.ssl_foo types.EventDelete m2 in
  let m4 := syncSecretSSL "helm_test-atls" demo.ssl_bar types.EventDelete m3 in
  apisixv1.ID demo.ssl_foo <> apisixv1.ID demo.ssl_bar
  /\ types.EventAdd <> types.EventDelete
  /\ types.EventUpdate <> types.EventDelete
  /\ (exists bucket3,
        m3 !! "helm_test-atls" = Some bucket3
        /\ bucket3 !! "helm_foo" = None
        /\ bucket3 !! "helm_bar" = Some demo.ssl_bar)
  /\ m4 !! "helm_test-atls" = Some ∅.
Proof.
  intros m2 m3 m4.
  assert (Hid : apisixv1.ID demo.ssl_foo <> apisixv1.ID demo.ssl_bar) by discriminate.
  assert (Hadd : types.EventAdd <> types.EventDelete) by discriminate.
  assert (Hupd : types.EventUpdate <> types.EventDelete) by discriminate.
  split; [exact Hid|]. split; [exact Hadd|]. split; [exact Hupd|].
  destruct (syncSecretSSL_isolation "helm_test-atls" demo.ssl_foo demo.ssl_bar
              types.EventAdd types.EventUpdate ∅ Hid Hadd Hupd)
    as [(bucket2 & _ & _ & _ & bucket3 & H3 & Hfoo & Hbar & _) (_ & _ & Hempty)].
  split.
  - exists bucket3. split_and!; [exact H3 | exact Hfoo | exact Hbar].
  - apply Hempty. apply lookup_empty.
Defined.

End secret_index.

(** ** The TLS reconcile: translation, index, gateway *)

Section tls_reconcile.
Import ingress.

(** The index entry of a binding after [syncSecretSSL]: present after an
    upsert, absent after a removal. *)
Lemma syncSecretSSL_entry key ssl event m :
  (event <> types.EventDelete ->
   exists bucket, syncSecretSSL key ssl event m !! key = Some bucket
                  /\ bucket !! apisixv1.ID ssl = Some ssl)
  /\ (event = types.EventDelete ->
      forall bucket, syncSecretSSL key ssl event m !! key = Some bucket ->
                     bucket !! apisixv1.ID ssl = None).
Proof.
  split.
  - intros Hev. eexists. split; [by apply syncSecretSSL_upsert|].
    by rewrite lookup_insert_eq.
  - intros -> bucket. destruct (m !! key) as [sslMap|] eqn:Hm.
    + rewrite (syncSecretSSL_remove _ _ _ _ Hm). intros [= <-].
      by rewrite lookup_delete_eq.
    + rewrite syncSecretSSL_remove_absent by done. by rewrite Hm.
Qed.

(** C8.  When the reconcile reaches translation and translation
    succeeds, the index is updated and then the gateway sync is called:
    the call sees the updated index, and the state the reconcile leaves
    has that index whether the gateway sync failed (the reconcile returns
    its error) or not.  For a non-delete event the index then holds the
    binding's ssl under its ID in the bucket of its secret; for a delete
    event no bucket of that secret holds the ID. *)
Theorem sync_index_before_gateway
    (c : Controller) (ev : types.Event) (tls : configv1.ApisixTls)
    (ssl : apisixv1.Ssl) (s : state) :
  resolve c ev = Effective (Some tls) ->
  TranslateSSL c tls = Return ssl ->
  let ref := configv1.Secret (configv1.tls_Spec tls) in
  let secretKey := configv1.Namespace ref ++ "_" ++ configv1.Name ref in
  let index := syncSecretSSL secretKey ssl (types.Type_ ev) (secretSSLMap s) in
  exists r s' recorded,
    sync c ev s = (r, s')
    /\ secretSSLMap s' = index
    /\ trace s' = (trace s ++ [ CallTranslateSSL tls;
                                CallSyncSSL index ssl (types.Type_ ev);
                                recorded ])%list
    /\ r = match syncSSL c index ssl (types.Type_ ev) with
           | Some err => Fail err
           | None => Return tt
           end
    /\ (types.Type_ ev <> types.EventDelete ->
        exists bucket, index !! secretKey = Some bucket
                       /\ bucket !! apisixv1.ID ssl = Some ssl)
    /\ (types.Type_ ev = types.EventDelete ->
        forall bucket, index !! secretKey = Some bucket ->
                       bucket !! apisixv1.ID ssl = None).
Proof.
  intros Hres Htr ref secretKey index.
  unfold sync. rewrite Hres. unfold reconcile. rewrite Htr. simpl.
  fold ref. fold secretKey. fold index.
  destruct (syncSSL c index ssl (types.Type_ ev)) as [err|];
    do 3 eexists; (split_and!; [reflexivity | reflexivity | | reflexivity | | ]);
    try (simpl; rewrite <- !app_assoc; reflexivity);
    apply syncSecretSSL_entry.
Qed.

(** The statement above for an Add event with an unreachable gateway:
    the reconcile fails and the index holds the binding. *)
Lemma sync_index_before_gateway_witness :
  let c := demo.tls_controller (Some (demo.tls_at "2"), None) demo.secrets
             (Some (OtherError "gateway unreachable")) in
  let ev := demo.tls_event types.EventAdd None in
  resolve c ev = Effective (Some (demo.tls_at "2"))
  /\ TranslateSSL c (demo.tls_at "2") = Return demo.ssl_foo
  /\ exists s',
       sync c ev demo.tls_start = (Fail (OtherError "gateway unreachable"), s')
       /\ exists bucket, secretSSLMap s' !! "helm_test-atls" = Some bucket
                         /\ bucket !! "helm_foo" = Some demo.ssl_foo.
Proof.
  intros c ev.
  assert (Hres : resolve c ev = Effective (Some (demo.tls_at "2"))) by reflexivity.
  assert (Htr : TranslateSSL c (demo.tls_at "2") = Return demo.ssl_foo) by reflexivity.
  split; [exact Hres|]. split; [exact Htr|].
  destruct (sync_index_before_gateway c ev (demo.tls_at "2") demo.ssl_foo
              demo.tls_start Hres Htr)
    as (r & s' & recorded & Hsync & Hidx & _ & Hr & Hadd & _).
  exists s'. split.
  - rewrite Hsync, Hr. reflexivity.
  - rewrite Hidx. apply Hadd. discriminate.
Defined.

(** C5.  With the translator of the specification over a secret lookup
    that does not deliver the referenced secret: translation fails with
    an error of field [secret] and returns no ssl object, and a
    reconcile that reaches translation returns that failure, records the
    warning, leaves the index as it was and makes no gateway call. *)
Theorem TranslateSSL_secret_unavailable
    (secret_lister : lister translation_ssl.Secret)
    (c : Controller) (ev : types.Event) (tls : configv1.ApisixTls) (s : state) :
  TranslateSSL c = translation_ssl.TranslateSSL secret_lister ->
  resolve c ev = Effective (Some tls) ->
  (forall secret,
     secret_lister (configv1.Namespace (configv1.Secret (configv1.tls_Spec tls)))
                   (configv1.Name (configv1.Secret (configv1.tls_Spec tls)))
     <> (Some secret, None)) ->
  exists te,
    field te = "secret"
    /\ translation_ssl.TranslateSSL secret_lister tls = Fail (TranslateError te)
    /\ sync c ev s
       = (Fail (TranslateError te),
          {| secretSSLMap := secretSSLMap s;
             trace := (trace s ++
                       [ CallTranslateSSL tls;
                         RecorderEvent tls EventTypeWarning _resourceSyncAborted
                           (_messageResourceFailed _tlsController
                              (Error (TranslateError te))) ])%list |}).
Proof.
  intros Htr Hres Hsecret.
  assert (exists te, field te = "secret"
                     /\ translation_ssl.TranslateSSL secret_lister tls
                        = Fail (TranslateError te)) as (te & Hfield & Hfail).
  { unfold translation_ssl.TranslateSSL.
    destruct (secret_lister _ _) as [[secret|] [err|]];
      try (eexists; split; [|reflexivity]; reflexivity).
    by destruct (Hsecret secret). }
  exists te. split_and!; [done | done |].
  unfold sync. rewrite Hres. unfold reconcile. rewrite Htr, Hfail.
  unfold emit. simpl. by rewrite <- app_assoc.
Qed.

(** The statement above with the failing secret lookup of the test. *)
Lemma TranslateSSL_secret_unavailable_witness :
  let c := demo.tls_controller (Some (demo.tls_at "2"), None) demo.no_secrets None in
  let ev := demo.tls_event types.EventAdd None in
  TranslateSSL c = translation_ssl.TranslateSSL demo.no_secrets
  /\ resolve c ev = Effective (Some (demo.tls_at "2"))
  /\ exists te,
       field te = "secret"
       /\ fst (sync c ev demo.tls_start) = Fail (TranslateError te)
       /\ secretSSLMap (snd (sync c ev demo.tls_start)) = ∅.
Proof.
  intros c ev. split; [reflexivity|]. split; [reflexivity|].
  destruct (TranslateSSL_secret_unavailable demo.no_secrets c ev (demo.tls_at "2")
              demo.tls_start eq_refl eq_refl) as (te & Hfield & _ & Hsync).
  - intros secret. discriminate.
  - exists te. rewrite Hsync. split_and!; [exact Hfield | reflexivity | reflexivity].
Defined.

End tls_reconcile.

(** ** Stale, vanished and superseded events *)

Section stale_events.

(** Decimal numerals of the same length are ordered by Go's string
    comparison as the numbers they denote. *)
Lemma numeral_value_bound s :
  versions.is_numeral s = true ->
  (versions.numeral_value s < 10 ^ N.of_nat (String.length s))%N.
Proof.
  induction s as [|c s IH]; simpl; [reflexivity|].
  intros [Hc Hs]%andb_true_iff. specialize (IH Hs).
  unfold versions.is_digit in Hc. apply andb_true_iff in Hc as [Hlo Hhi].
  apply N.leb_le in Hlo, Hhi.
  assert (Hd : (versions.digit_value c <= 9)%N) by (unfold versions.digit_value; lia).
  rewrite Nat2N.inj_succ, N.pow_succ_r'. nia.
Qed.

Lemma string_lt_numeral a b :
  versions.is_numeral a = true -> versions.is_numeral b = true ->
  String.length a = String.length b ->
  string_lt a b = versions.older a b.
Proof.
  unfold versions.older. revert b.
  induction a as [|c1 a IH]; intros [|c2 b]; simpl; try done.
  intros [Hc1 Ha]%andb_true_iff [Hc2 Hb]%andb_true_iff [= Hlen].
  pose proof (numeral_value_bound a Ha) as Hba.
  pose proof (numeral_value_bound b Hb) as Hbb.
  specialize (IH b Ha Hb Hlen). rewrite Hlen in *.
  unfold versions.is_digit in Hc1, Hc2.
  apply andb_true_iff in Hc1 as [Hlo1 Hhi1]. apply andb_true_iff in Hc2 as [Hlo2 Hhi2].
  apply N.leb_le in Hlo1, Hhi1, Hlo2, Hhi2.
  unfold string_lt in *. simpl. unfold Ascii.compare.
  set (p := (10 ^ N.of_nat (String.length b))%N) in *.
  destruct (N.compare_spec (N_of_ascii c1) (N_of_ascii c2)) as [Heq|Hlt|Hgt].
  - rewrite IH. unfold versions.digit_value. rewrite Heq.
    destruct (N.ltb_spec (versions.numeral_value a) (versions.numeral_value b));
      symmetry; [apply N.ltb_lt | apply N.ltb_ge]; lia.
  - symmetry. apply N.ltb_lt. unfold versions.digit_value. nia.
  - symmetry. apply N.ltb_ge. unfold versions.digit_value. nia.
Qed.

(** C1 fails on the upstream controller.  A policy is deleted at resource
    version 9 and recreated at resource version 10 before its DELETE item
    is reconciled.  The key of the item resolves to the live object, and
    version 9 is older than version 10; but the guard of the stale-delete
    branch compares the two tokens as strings, and as strings 10 is not
    greater than 9.  The handler goes on: it converts the carried object
    and removes its upstreams from the gateway, and the worker forgets
    the item.  The TLS controller, on the same history, discards the
    event with success and without any call. *)
Lemma upstream_delete_after_recreation_removes :
  let u := demo.upstream_controller (Some (demo.upstream_at "10"), None) in
  let sqo := demo.upstream_item controller.DELETE (Some (demo.upstream_at "9")) in
  let c := demo.tls_controller (Some (demo.tls_at "10"), None) demo.secrets None in
  let ev := demo.tls_event types.EventDelete (Some (demo.tls_at "9")) in
  (controller.Ope sqo = controller.DELETE
   /\ controller.OldObj sqo = Some (demo.upstream_at "9")
   /\ controller.apisixUpstreamList u "ns" "svc" = (Some (demo.upstream_at "10"), None)
   /\ versions.older "9" "10" = true
   /\ string_lt "9" "10" = false
   /\ controller.syncHandler u sqo []
      = (Return tt,
         [ controller.CallConvert (Some (demo.upstream_at "9"));
           controller.CallRemove [ demo.default_upstream ] ])
   /\ controller.syncHandler u sqo [] <> (Return tt, [])
   /\ controller.processNextWorkItem u (controller.UpstreamQueueObjPtr sqo) []
      = (Return true,
         [ controller.CallConvert (Some (demo.upstream_at "9"));
           controller.CallRemove [ demo.default_upstream ];
           controller.WorkqueueForget (controller.UpstreamQueueObjPtr sqo);
           controller.WorkqueueDone (controller.UpstreamQueueObjPtr sqo) ]))
  /\ (types.Type_ ev = types.EventDelete
      /\ types.Tombstone ev = Some (demo.tls_at "9")
      /\ ingress.apisixTlsLister c "helm" "foo" = (Some (demo.tls_at "10"), None)
      /\ ingress.sync c ev demo.tls_start = (Return tt, demo.tls_start)).
Proof. by split_and!. Qed.

(** X22.  The stale deletes that are discarded.  A Delete event whose key
    still resolves to a live object: the TLS controller returns success
    without any call (no translation, no gateway sync) and the worker
    forgets the item; the upstream controller does so when the carried
    object is older than the cached one, for resource versions that are
    decimal numerals of the same length. *)
Theorem recreated_object_delete_discarded :
  (forall (c : ingress.Controller) (ev : types.Event) (s : ingress.state)
          namespace name tls,
     types.Type_ ev = types.EventDelete ->
     ingress.SplitMetaNamespaceKey c (types.Object ev) = ((namespace, name), None) ->
     ingress.apisixTlsLister c namespace name = (Some tls, None) ->
     ingress.sync c ev s = (Return tt, s)
     /\ ingress.runWorker c ev s
        = (Return tt,
           ingress.emit (ingress.WorkqueueForget ev)
             (ingress.emit (ingress.WorkqueueDone ev) s)))
  /\ (forall (c : controller.ApisixUpstreamController) (sqo : controller.UpstreamQueueObj)
             (s : controller.state) namespace name cached err old,
        controller.Ope sqo = controller.DELETE ->
        controller.SplitMetaNamespaceKey c (controller.Key sqo) = ((namespace, name), None) ->
        controller.apisixUpstreamList c namespace name = (Some cached, err) ->
        controller.OldObj sqo = Some old ->
        versions.is_numeral (configv1.au_ResourceVersion old) = true ->
        versions.is_numeral (configv1.au_ResourceVersion cached) = true ->
        String.length (configv1.au_ResourceVersion old)
        = String.length (configv1.au_ResourceVersion cached) ->
        versions.older (configv1.au_ResourceVersion old)
                       (configv1.au_ResourceVersion cached) = true ->
        controller.syncHandler c sqo s = (Return tt, s)
        /\ controller.processNextWorkItem c (controller.UpstreamQueueObjPtr sqo) s
           = (Return true,
              controller.emit (controller.WorkqueueDone (controller.UpstreamQueueObjPtr sqo))
                (controller.emit
                   (controller.WorkqueueForget (controller.UpstreamQueueObjPtr sqo)) s))).
Proof.
  split.
  - intros c ev s namespace name tls Hty Hsplit Hget.
    assert (Hsync : ingress.sync c ev s = (Return tt, s)).
    { unfold ingress.sync, ingress.resolve. rewrite Hsplit, Hget.
      by rewrite decide_True by done. }
    split; [done|]. unfold ingress.runWorker. by rewrite Hsync.
  - intros c sqo s namespace name cached err old Hope Hsplit Hget Hold Hn1 Hn2 Hlen Holder.
    assert (Hlt : string_lt (configv1.au_ResourceVersion old)
                            (configv1.au_ResourceVersion cached) = true).
    { by rewrite (string_lt_numeral _ _ Hn1 Hn2 Hlen). }
    assert (Hsync : controller.syncHandler c sqo s = (Return tt, s)).
    { unfold controller.syncHandler. rewrite Hsplit, Hope, Hget, Hold, Hlt. done. }
    split; [done|]. unfold controller.processNextWorkItem. by rewrite Hsync.
Qed.

(** The statement above for a binding and a policy recreated at
    version 9 after version 2 was deleted. *)
Lemma recreated_object_delete_discarded_witness :
  let c := demo.tls_controller (Some (demo.tls_at "9"), None) demo.secrets None in
  let ev := demo.tls_event types.EventDelete (Some (demo.tls_at "2")) in
  let u := demo.upstream_controller (Some (demo.upstream_at "9"), None) in
  let sqo := demo.upstream_item controller.DELETE (Some (demo.upstream_at "2")) in
  (types.Type_ ev = types.EventDelete
   /\ ingress.apisixTlsLister c "helm" "foo" = (Some (demo.tls_at "9"), None)
   /\ ingress.sync c ev demo.tls_start = (Return tt, demo.tls_start))
  /\ (controller.Ope sqo = controller.DELETE
      /\ versions.older "2" "9" = true
      /\ controller.syncHandler u sqo [] = (Return tt, [])).
Proof.
  intros c ev u sqo. split.
  - split; [reflexivity|]. split; [reflexivity|].
    exact (proj1 (proj1 recreated_object_delete_discarded c ev demo.tls_start "helm" "foo"
                    (demo.tls_at "9") eq_refl eq_refl eq_refl)).
  - split; [reflexivity|]. split; [reflexivity|].
    exact (proj1 (proj2 recreated_object_delete_discarded u sqo [] "ns" "svc"
                    (demo.upstream_at "9") None (demo.upstream_at "2")
                    eq_refl eq_refl eq_refl eq_refl eq_refl eq_refl eq_refl eq_refl)).
Defined.

(** C2.  A non-Delete event whose cache lookup reports not-found:
    the reconcile returns success with no call at all, so no event is
    recorded, and the worker forgets the item instead of requeueing it.
    Any other lookup error is returned and the worker requeues the item
    rate-limited.  Both controllers. *)
Theorem vanished_object_not_retried :
  (forall (c : ingress.Controller) (ev : types.Event) (s : ingress.state)
          namespace name tls err,
     types.Type_ ev <> types.EventDelete ->
     ingress.SplitMetaNamespaceKey c (types.Object ev) = ((namespace, name), None) ->
     ingress.apisixTlsLister c namespace name = (tls, Some err) ->
     (IsNotFound err = true ->
      ingress.sync c ev s = (Return tt, s)
      /\ ingress.runWorker c ev s
         = (Return tt,
            ingress.emit (ingress.WorkqueueForget ev)
              (ingress.emit (ingress.WorkqueueDone ev) s)))
     /\ (IsNotFound err = false ->
         ingress.sync c ev s = (Fail err, s)
         /\ ingress.runWorker c ev s
            = (Return tt,
               ingress.emit (ingress.WorkqueueAddRateLimited ev)
                 (ingress.emit (ingress.WorkqueueDone ev) s))))
  /\ (forall (c : controller.ApisixUpstreamController) (sqo : controller.UpstreamQueueObj)
             (s : controller.state) namespace name cached err,
        controller.Ope sqo <> controller.DELETE ->
        controller.SplitMetaNamespaceKey c (controller.Key sqo) = ((namespace, name), None) ->
        controller.apisixUpstreamList c namespace name = (cached, Some err) ->
        let obj := controller.UpstreamQueueObjPtr sqo in
        (IsNotFound err = true ->
         controller.syncHandler c sqo s = (Return tt, s)
         /\ controller.processNextWorkItem c obj s
            = (Return true,
               controller.emit (controller.WorkqueueDone obj)
                 (controller.emit (controller.WorkqueueForget obj) s)))
        /\ (IsNotFound err = false ->
            controller.syncHandler c sqo s = (Fail err, s)
            /\ controller.processNextWorkItem c obj s
               = (Return true,
                  controller.emit (controller.WorkqueueDone obj)
                    (controller.emit (controller.WorkqueueAddRateLimited obj) s)))).
Proof.
  split.
  - intros c ev s namespace name tls err Hty Hsplit Hget. split; intros Hnf.
    + assert (Hsync : ingress.sync c ev s = (Return tt, s)).
      { unfold ingress.sync, ingress.resolve. rewrite Hsplit, Hget, Hnf. simpl.
        by rewrite decide_True by done. }
      split; [done|]. unfold ingress.runWorker. by rewrite Hsync.
    + assert (Hsync : ingress.sync c ev s = (Fail err, s)).
      { unfold ingress.sync, ingress.resolve. by rewrite Hsplit, Hget, Hnf. }
      split; [done|]. unfold ingress.runWorker. by rewrite Hsync.
  - intros c sqo s namespace name cached err Hope Hsplit Hget obj.
    apply String.eqb_neq in Hope. split; intros Hnf.
    + assert (Hsync : controller.syncHandler c sqo s = (Return tt, s)).
      { unfold controller.syncHandler. by rewrite Hsplit, Hope, Hget, Hnf. }
      split; [done|]. unfold controller.processNextWorkItem, obj. by rewrite Hsync.
    + assert (Hsync : controller.syncHandler c sqo s = (Fail err, s)).
      { unfold controller.syncHandler. by rewrite Hsplit, Hope, Hget, Hnf. }
      split; [done|]. unfold controller.processNextWorkItem, obj. by rewrite Hsync.
Qed.

(** The statement above: an Add event for a vanished binding, and an
    ADD item whose lookup fails otherwise. *)
Lemma vanished_object_not_retried_witness :
  let gone := StatusNotFound "not found" in
  let c := demo.tls_controller (None, Some gone) demo.secrets None in
  let ev := demo.tls_event types.EventAdd None in
  let u := demo.upstream_controller (None, Some (OtherError "cache closed")) in
  let sqo := demo.upstream_item controller.ADD None in
  (types.Type_ ev <> types.EventDelete
   /\ IsNotFound gone = true
   /\ ingress.runWorker c ev demo.tls_start
      = (Return tt,
         {| ingress.secretSSLMap := ∅;
            ingress.trace := [ ingress.WorkqueueDone ev; ingress.WorkqueueForget ev ] |}))
  /\ (controller.Ope sqo <> controller.DELETE
      /\ IsNotFound (OtherError "cache closed") = false
      /\ controller.processNextWorkItem u (controller.UpstreamQueueObjPtr sqo) []
         = (Return true,
            [ controller.WorkqueueAddRateLimited (controller.UpstreamQueueObjPtr sqo);
              controller.WorkqueueDone (controller.UpstreamQueueObjPtr sqo) ])).
Proof.
  intros gone c ev u sqo.
  assert (Hty : types.Type_ ev <> types.EventDelete) by discriminate.
  assert (Hope : controller.Ope sqo <> controller.DELETE) by discriminate.
  split.
  - split; [exact Hty|]. split; [reflexivity|].
    exact (proj2 (proj1 (proj1 vanished_object_not_retried c ev demo.tls_start
                           "helm" "foo" None gone Hty eq_refl eq_refl) eq_refl)).
  - split; [exact Hope|]. split; [reflexivity|].
    exact (proj2 (proj2 (proj2 vanished_object_not_retried u sqo [] "ns" "svc"
                           None (OtherError "cache closed") Hope eq_refl eq_refl) eq_refl)).
Defined.

(** C3, as the code is designed.  An Update event is dropped before it
    is enqueued, so that nothing is reconciled for it: by the TLS
    controller when the old and the new object carry the same resource
    version; by the upstream controller when the old object's resource
    version is not older than the new object's, for resource versions
    that are decimal numerals of the same length. *)
Theorem superseded_update_dropped :
  (forall (c : ingress.Controller) (oldTls newTls : configv1.ApisixTls)
          (s : ingress.state),
     configv1.tls_ResourceVersion oldTls = configv1.tls_ResourceVersion newTls ->
     ingress.onUpdate c (ingress.ApisixTlsPtr oldTls) (ingress.ApisixTlsPtr newTls) s
     = (Return tt, s))
  /\ (forall (c : controller.ApisixUpstreamController)
             (oldUpstream newUpstream : configv1.ApisixUpstream) (s : controller.state),
        versions.is_numeral (configv1.au_ResourceVersion oldUpstream) = true ->
        versions.is_numeral (configv1.au_ResourceVersion newUpstream) = true ->
        String.length (configv1.au_ResourceVersion oldUpstream)
        = String.length (configv1.au_ResourceVersion newUpstream) ->
        versions.older (configv1.au_ResourceVersion oldUpstream)
                       (configv1.au_ResourceVersion newUpstream) = false ->
        controller.updateFunc c (controller.ApisixUpstreamPtr oldUpstream)
                                (controller.ApisixUpstreamPtr newUpstream) s
        = (Return tt, s)).
Proof.
  split.
  - intros c oldTls newTls s Heq. unfold ingress.onUpdate.
    by rewrite Heq, String.eqb_refl.
  - intros c oldUpstream newUpstream s Hn1 Hn2 Hlen Hge. unfold controller.updateFunc.
    by rewrite (string_lt_numeral _ _ Hn1 Hn2 Hlen), Hge.
Qed.

(** The statement above: a resync of the binding at version 2, and a
    policy update from version 3 to version 2. *)
Lemma superseded_update_dropped_witness :
  let c := demo.tls_controller (Some (demo.tls_at "2"), None) demo.secrets None in
  let u := demo.upstream_controller (Some (demo.upstream_at "2"), None) in
  (configv1.tls_ResourceVersion (demo.tls_at "2")
     = configv1.tls_ResourceVersion (demo.tls_at "2")
   /\ ingress.onUpdate c (ingress.ApisixTlsPtr (demo.tls_at "2"))
        (ingress.ApisixTlsPtr (demo.tls_at "2")) demo.tls_start
      = (Return tt, demo.tls_start))
  /\ (versions.is_numeral "3" = true
      /\ versions.is_numeral "2" = true
      /\ versions.older "3" "2" = false
      /\ controller.updateFunc u (controller.ApisixUpstreamPtr (demo.upstream_at "3"))
           (controller.ApisixUpstreamPtr (demo.upstream_at "2")) []
         = (Return tt, [])).
Proof.
  intros c u. split.
  - split; [reflexivity|].
    exact (proj1 superseded_update_dropped c (demo.tls_at "2") (demo.tls_at "2")
             demo.tls_start eq_refl).
  - split; [reflexivity|]. split; [reflexivity|]. split; [reflexivity|].
    exact (proj2 superseded_update_dropped u (demo.upstream_at "3") (demo.upstream_at "2")
             [] eq_refl eq_refl eq_refl eq_refl).
Defined.

(** C3, as stated, fails on the TLS controller: the old object carries
    version 3, the new one version 2, so the old version is not older;
    the handler enqueues the Update event, and the worker that takes it
    translates the binding and calls the gateway sync. *)
Lemma tls_update_with_newer_old_version_enqueued :
  let c := demo.tls_controller (Some (demo.tls_at "2"), None) demo.secrets None in
  let ev := demo.tls_event types.EventUpdate None in
  string_lt "3" "2" = false
  /\ versions.older "3" "2" = false
  /\ ingress.onUpdate c (ingress.ApisixTlsPtr (demo.tls_at "3"))
       (ingress.ApisixTlsPtr (demo.tls_at "2")) demo.tls_start
     <> (Return tt, demo.tls_start)
  /\ ingress.onUpdate c (ingress.ApisixTlsPtr (demo.tls_at "3"))
       (ingress.ApisixTlsPtr (demo.tls_at "2")) demo.tls_start
     = (Return tt,
        {| ingress.secretSSLMap := ∅;
           ingress.trace := [ ingress.WorkqueueAddRateLimited ev ] |})
  /\ ingress.trace (snd (ingress.sync c ev demo.tls_start))
     = [ ingress.CallTranslateSSL (demo.tls_at "2");
         ingress.CallSyncSSL {[ "helm_test-atls" := {[ "helm_foo" := demo.ssl_foo ]} ]}
           demo.ssl_foo types.EventUpdate;
         ingress.RecorderEvent (demo.tls_at "2") ingress.EventTypeNormal
           ingress._resourceSynced
           (ingress._messageResourceSynced ingress._tlsController) ].
Proof. by split_and!. Qed.

End stale_events.

(** ** Further properties of the secret cross-reference index *)

Section index_algebra.
Import ingress index.

Implicit Types (m : gmap string (gmap string apisixv1.Ssl)) (ssl : apisixv1.Ssl).

(** [syncSecretSSL] acts on the bucket of its key by [bucket_op] and on
    nothing else. *)
Lemma syncSecretSSL_lookup key ssl event m k :
  syncSecretSSL key ssl event m !! k
  = if decide (k = key) then bucket_op ssl event (m !! key) else m !! k.
Proof.
  unfold syncSecretSSL, bucket_op.
  destruct (m !! key) as [sslMap|] eqn:Hm.
  - destruct event; case_decide as Hk; subst;
      rewrite ?lookup_insert_eq; rewrite ?lookup_insert_ne by done; done.
  - case_decide as Hev; case_decide as Hk; subst;
      rewrite ?lookup_insert_eq; rewrite ?lookup_insert_ne by done; done.
Qed.

Lemma bucket_op_commute ssl1 ssl2 event1 event2 bucket :
  apisixv1.ID ssl1 <> apisixv1.ID ssl2 ->
  bucket_op ssl1 event1 (bucket_op ssl2 event2 bucket)
  = bucket_op ssl2 event2 (bucket_op ssl1 event1 bucket).
Proof.
  intros Hid. assert (Hid' : apisixv1.ID ssl2 <> apisixv1.ID ssl1) by congruence.
  destruct bucket as [b|]; destruct event1, event2; simpl; f_equal;
    rewrite <- ?insert_empty;
    rewrite ?delete_insert_ne by done; rewrite ?delete_empty;
    first [ done | by apply insert_insert_ne | by apply delete_delete ].
Qed.

(** X1.  Two index operations commute when they are for different
    secrets, or for ssl objects with different IDs. *)
Theorem syncSecretSSL_commute key1 key2 ssl1 ssl2 event1 event2 m :
  key1 <> key2 \/ apisixv1.ID ssl1 <> apisixv1.ID ssl2 ->
  syncSecretSSL key1 ssl1 event1 (syncSecretSSL key2 ssl2 event2 m)
  = syncSecretSSL key2 ssl2 event2 (syncSecretSSL key1 ssl1 event1 m).
Proof.
  intros Hne. apply map_eq. intros k. rewrite !syncSecretSSL_lookup.
  destruct (decide (key1 = key2)) as [<-|Hkeys].
  - destruct Hne as [Hne|Hid]; [done|].
    rewrite !(decide_True (P := key1 = key1)) by done.
    case_decide; [by apply bucket_op_commute | done].
  - rewrite (decide_False (P := key2 = key1)) by congruence.
    repeat case_decide; subst; done.
Qed.

Lemma syncSecretSSL_commute_witness :
  "helm_a" <> "helm_b"
  /\ syncSecretSSL "helm_a" demo.ssl_foo types.EventAdd
       (syncSecretSSL "helm_b" demo.ssl_foo types.EventDelete ∅)
     = syncSecretSSL "helm_b" demo.ssl_foo types.EventDelete
         (syncSecretSSL "helm_a" demo.ssl_foo types.EventAdd ∅).
Proof.
  assert (H : "helm_a" <> "helm_b") by discriminate.
  split; [exact H|].
  apply syncSecretSSL_commute. left. exact H.
Defined.

Lemma bucket_op_last_wins ssl ssl' event event' bucket :
  apisixv1.ID ssl = apisixv1.ID ssl' ->
  event' <> types.EventDelete \/ is_Some bucket \/ event = types.EventDelete ->
  bucket_op ssl' event' (bucket_op ssl event bucket) = bucket_op ssl' event' bucket.
Proof.
  intros Hid Hcase. unfold bucket_op. rewrite Hid.
  destruct bucket as [b|].
  - destruct event, event'; f_equal;
      first [ apply insert_insert_eq | apply delete_insert_eq
            | apply insert_delete_eq | apply delete_delete_eq ].
  - destruct Hcase as [Hev'|[[b Hb]| ->]]; [|done|done].
    rewrite (decide_True (P := event' <> types.EventDelete)) by done.
    case_decide; [|done].
    destruct event'; [| |done]; f_equal;
      rewrite <- !insert_empty; apply insert_insert_eq.
Qed.

(** X2.  For one ssl ID under one secret the last operation wins: what
    an earlier upsert or removal of that ID left is overwritten, so a
    repeated operation changes nothing and a re-translated ssl replaces
    the stored one.  The one exception, a removal that follows the upsert
    which created the bucket, is left out here. *)
Theorem syncSecretSSL_last_wins key ssl ssl' event event' m :
  apisixv1.ID ssl = apisixv1.ID ssl' ->
  event' <> types.EventDelete \/ is_Some (m !! key) \/ event = types.EventDelete ->
  syncSecretSSL key ssl' event' (syncSecretSSL key ssl event m)
  = syncSecretSSL key ssl' event' m.
Proof.
  intros Hid Hcase. apply map_eq. intros k. rewrite !syncSecretSSL_lookup.
  rewrite (decide_True (P := key = key)) by done.
  case_decide; [|done]. by apply bucket_op_last_wins.
Qed.

Lemma syncSecretSSL_last_wins_witness :
  let renewed := {| apisixv1.ID := "helm_foo";
                    apisixv1.Snis := [ "api6.com" ];
                    apisixv1.Cert := "renewed";
                    apisixv1.Key := "654321";
                    apisixv1.Status := 1 |} in
  apisixv1.ID demo.ssl_foo = apisixv1.ID renewed
  /\ types.EventUpdate <> types.EventDelete
  /\ syncSecretSSL "helm_test-atls" renewed types.EventUpdate
       (syncSecretSSL "helm_test-atls" demo.ssl_foo types.EventAdd ∅)
     = syncSecretSSL "helm_test-atls" renewed types.EventUpdate ∅.
Proof.
  intros renewed.
  assert (Hev : types.EventUpdate <> types.EventDelete) by discriminate.
  split; [reflexivity|]. split; [exact Hev|].
  apply syncSecretSSL_last_wins; [reflexivity|]. left. exact Hev.
Defined.

(** X3.  An upsert followed by the removal of the same ssl restores the
    index exactly when the secret already had a bucket without that ID.
    When the upsert had to create the bucket, the removal leaves the
    emptied bucket behind; when the bucket already held an entry under
    that ID, the entry is gone.  In every case the bucket of the secret
    ends as the bucket it was, or the empty one, without that ID, and
    the other buckets are untouched. *)
Theorem syncSecretSSL_upsert_remove key ssl event m :
  event <> types.EventDelete ->
  let m' := syncSecretSSL key ssl types.EventDelete (syncSecretSSL key ssl event m) in
  (m' = m <-> exists bucket, m !! key = Some bucket /\ bucket !! apisixv1.ID ssl = None)
  /\ (m !! key = None -> m' = <[key := ∅]> m /\ m' <> m)
  /\ (forall bucket prev,
        m !! key = Some bucket -> bucket !! apisixv1.ID ssl = Some prev ->
        m' = <[key := delete (apisixv1.ID ssl) bucket]> m /\ m' <> m)
  /\ m' = <[key := delete (apisixv1.ID ssl) (default ∅ (m !! key))]> m.
Proof.
  intros Hev m'.
  assert (Hall : m' = <[key := delete (apisixv1.ID ssl) (default ∅ (m !! key))]> m).
  { apply map_eq. intros k. unfold m'.
    rewrite !syncSecretSSL_lookup. rewrite (decide_True (P := key = key)) by done.
    case_decide as Hk; [|by rewrite lookup_insert_ne].
    subst k. rewrite lookup_insert_eq.
    destruct (m !! key) as [bucket|] eqn:Hm; simpl.
    - destruct event; [| |done]; simpl; f_equal; by rewrite delete_insert_eq.
    - rewrite decide_True by done. simpl. f_equal.
      by rewrite <- insert_empty, delete_insert_eq. }
  assert (Hkey : m' !! key = Some (delete (apisixv1.ID ssl) (default ∅ (m !! key)))).
  { by rewrite Hall, lookup_insert_eq. }
  split_and!.
  - split.
    + intros Heq. rewrite Heq in Hkey.
      destruct (m !! key) as [bucket|] eqn:Hm; [|done].
      exists bucket. split; [done|]. simpl in Hkey.
      injection Hkey as Hb. rewrite Hb. apply lookup_delete_eq.
    + intros (bucket & Hm & Hid). rewrite Hall, Hm. simpl.
      rewrite delete_id by done. by apply insert_id.
  - intros Hm. rewrite Hm in Hall, Hkey. simpl in Hall, Hkey.
    rewrite delete_empty in Hall, Hkey. split; [done|].
    intros Habs. by rewrite Habs, Hm in Hkey.
  - intros bucket prev Hm Hid. rewrite Hm in Hall, Hkey. simpl in Hall, Hkey.
    split; [done|]. intros Habs. rewrite Habs, Hm in Hkey.
    injection Hkey as Hb. rewrite Hb, lookup_delete_eq in Hid. done.
  - done.
Qed.

(** The statement above on the empty index, and on an index whose bucket
    holds another binding of the secret. *)
Lemma syncSecretSSL_upsert_remove_witness :
  let m := {[ "helm_test-atls" := {[ "helm_bar" := demo.ssl_bar ]} ]}
           : gmap string (gmap string apisixv1.Ssl) in
  types.EventAdd <> types.EventDelete
  /\ syncSecretSSL "helm_test-atls" demo.ssl_foo types.EventDelete
       (syncSecretSSL "helm_test-atls" demo.ssl_foo types.EventAdd ∅)
     = <["helm_test-atls" := ∅]> ∅
  /\ syncSecretSSL "helm_test-atls" demo.ssl_foo types.EventDelete
       (syncSecretSSL "helm_test-atls" demo.ssl_foo types.EventAdd m)
     = m.
Proof.
  intros m.
  assert (Hev : types.EventAdd <> types.EventDelete) by discriminate.
  split; [exact Hev|]. split.
  - exact (proj1 (proj1 (proj2 (syncSecretSSL_upsert_remove "helm_test-atls" demo.ssl_foo
                                  types.EventAdd ∅ Hev)) (lookup_empty _))).
  - apply (proj1 (syncSecretSSL_upsert_remove "helm_test-atls" demo.ssl_foo
                    types.EventAdd m Hev)).
    exists {[ "helm_bar" := demo.ssl_bar ]}. split; reflexivity.
Defined.

Lemma bucket_op_keyed ssl event bucket bucket' :
  (forall b, bucket = Some b -> bucket_keyed b) ->
  bucket_op ssl event bucket = Some bucket' -> bucket_keyed bucket'.
Proof.
  intros Hb. unfold bucket_op, bucket_keyed.
  destruct bucket as [b|].
  - specialize (Hb b eq_refl).
    destruct event; intros [= <-];
      first [ by apply map_Forall_insert_2 | by apply map_Forall_delete ].
  - case_decide; [|done]. intros [= <-].
    rewrite <- insert_empty. apply map_Forall_insert_2; [done|]. apply map_Forall_empty.
Qed.

Lemma syncSecretSSL_keyed key ssl event m :
  index_keyed m -> index_keyed (syncSecretSSL key ssl event m).
Proof.
  unfold index_keyed. rewrite !map_Forall_lookup. intros Hm k bucket.
  rewrite syncSecretSSL_lookup. case_decide as Hk; [|apply Hm].
  apply bucket_op_keyed. intros b. apply Hm.
Qed.

Lemma syncSecretSSL_is_Some key ssl event m k :
  is_Some (m !! k) -> is_Some (syncSecretSSL key ssl event m !! k).
Proof.
  rewrite syncSecretSSL_lookup. case_decide as Hk; [|done]. subst k.
  intros [b ->]. unfold bucket_op. by destruct event.
Qed.

End index_algebra.

(** ** The index over whole runs of the TLS worker *)

Section tls_runs.
Import ingress index workers.

Lemma reconcile_index c ev tls s :
  secretSSLMap (snd (reconcile c ev tls s)) = secretSSLMap s
  \/ exists key ssl,
       secretSSLMap (snd (reconcile c ev tls s))
       = syncSecretSSL key ssl (types.Type_ ev) (secretSSLMap s).
Proof.
  unfold reconcile. destruct tls as [tls|]; [|by left].
  destruct (TranslateSSL c tls) as [ssl|err|p]; [|by left|by left].
  right. eexists _, ssl. by destruct (syncSSL c _ _ _).
Qed.

Lemma sync_index c ev s :
  secretSSLMap (snd (sync c ev s)) = secretSSLMap s
  \/ exists key ssl,
       secretSSLMap (snd (sync c ev s))
       = syncSecretSSL key ssl (types.Type_ ev) (secretSSLMap s).
Proof.
  unfold sync. destruct (resolve c ev); [by left | apply reconcile_index].
Qed.

Lemma runWorker_index c ev s :
  secretSSLMap (snd (runWorker c ev s)) = secretSSLMap (snd (sync c ev s)).
Proof. unfold runWorker. by destruct (sync c ev s) as [[[]|err|p] s']. Qed.

(** Whatever every index operation preserves, a run of the worker
    preserves. *)
Lemma tls_runWorker_index_ind (P : gmap string (gmap string apisixv1.Ssl) -> Prop) :
  (forall key ssl event m, P m -> P (syncSecretSSL key ssl event m)) ->
  forall c items s,
    P (secretSSLMap s) -> P (secretSSLMap (snd (tls_runWorker c items s))).
Proof.
  intros Hop c items. induction items as [|ev items IH]; intros s Hs; simpl; [done|].
  assert (Hstep : P (secretSSLMap (snd (runWorker c ev s)))).
  { rewrite runWorker_index. destruct (sync_index c ev s) as [->|(key & ssl & ->)];
      [done | by apply Hop]. }
  destruct (runWorker c ev s) as [[[]|err|p] s']; simpl in *; [by apply IH|done|done].
Qed.

(** X4.  Every ssl in the index is stored under its own ID, and a run of
    the worker over any items, with any translator and gateway, keeps it
    so. *)
Theorem tls_runWorker_keeps_index_keyed
    (c : Controller) (items : list types.Event) (s : state) :
  index_keyed (secretSSLMap s) ->
  index_keyed (secretSSLMap (snd (tls_runWorker c items s))).
Proof.
  apply (tls_runWorker_index_ind index_keyed). intros key ssl event m.
  apply syncSecretSSL_keyed.
Qed.

Lemma tls_runWorker_keeps_index_keyed_witness :
  let c := demo.tls_controller (Some (demo.tls_at "2"), None) demo.secrets None in
  let items := [ demo.tls_event types.EventAdd None;
                 demo.tls_event types.EventUpdate None ] in
  index_keyed (secretSSLMap demo.tls_start)
  /\ index_keyed (secretSSLMap (snd (tls_runWorker c items demo.tls_start))).
Proof.
  intros c items.
  assert (H : index_keyed (secretSSLMap demo.tls_start)) by apply map_Forall_empty.
  split; [exact H|].
  exact (tls_runWorker_keeps_index_keyed c items demo.tls_start H).
Defined.

(** X5.  No run of the worker removes a bucket from the outer map: a
    secret that has a bucket keeps one, whatever is processed. *)
Theorem tls_runWorker_keeps_buckets
    (c : Controller) (items : list types.Event) (s : state) (key : string) :
  is_Some (secretSSLMap s !! key) ->
  is_Some (secretSSLMap (snd (tls_runWorker c items s)) !! key).
Proof.
  apply (tls_runWorker_index_ind (fun m => is_Some (m !! key))).
  intros k ssl event m. apply syncSecretSSL_is_Some.
Qed.

Lemma tls_runWorker_keeps_buckets_witness :
  let c := demo.tls_controller (None, Some (StatusNotFound "not found")) demo.secrets None in
  let items := [ demo.tls_event types.EventDelete (Some (demo.tls_at "2")) ] in
  let s := {| secretSSLMap := {[ "helm_test-atls" := {[ "helm_foo" := demo.ssl_foo ]} ]};
              trace := [] |} in
  is_Some (secretSSLMap s !! "helm_test-atls")
  /\ secretSSLMap (snd (tls_runWorker c items s)) !! "helm_test-atls" = Some ∅
  /\ is_Some (secretSSLMap (snd (tls_runWorker c items s)) !! "helm_test-atls").
Proof.
  intros c items s.
  assert (H : is_Some (secretSSLMap s !! "helm_test-atls")) by (eexists; reflexivity).
  split; [exact H|]. split; [reflexivity|].
  exact (tls_runWorker_keeps_buckets c items s "helm_test-atls" H).
Defined.

(** The index key is the reference itself when namespaces have no
    underscore. *)
Lemma append_underscore_inj (a1 a2 b1 b2 : string) :
  no_underscore a1 = true -> no_underscore a2 = true ->
  a1 ++ "_" ++ b1 = a2 ++ "_" ++ b2 -> a1 = a2 /\ b1 = b2.
Proof.
  revert a2. induction a1 as [|c1 a1 IH]; intros [|c2 a2]; cbn.
  - intros _ _ [= H]. by subst.
  - intros _ H2 [= <- _]. done.
  - intros H1 _ [= -> _]. done.
  - intros H1 H2 [= -> Heq].
    apply andb_true_iff in H1 as [_ H1]. apply andb_true_iff in H2 as [_ H2].
    destruct (IH a2 H1 H2 Heq) as [-> ->]. done.
Qed.

Lemma secretKey_inj ref1 ref2 :
  no_underscore (configv1.Namespace ref1) = true ->
  no_underscore (configv1.Namespace ref2) = true ->
  secretKey ref1 = secretKey ref2 -> ref1 = ref2.
Proof.
  intros H1 H2 Heq. destruct (append_underscore_inj _ _ _ _ H1 H2 Heq) as [Hns Hn].
  destruct ref1, ref2. simpl in *. by subst.
Qed.

Lemma reconcile_other_key c ev tls s key :
  key <> secretKey (configv1.Secret (configv1.tls_Spec tls)) ->
  secretSSLMap (snd (reconcile c ev (Some tls) s)) !! key = secretSSLMap s !! key.
Proof.
  intros Hkey. unfold reconcile.
  destruct (TranslateSSL c tls) as [ssl|err|p]; [|done|done].
  destruct (syncSSL c _ _ _); simpl; by rewrite syncSecretSSL_other.
Qed.

(** X6.  When namespaces carry no underscore, two secret references
    have the same index key only if they are the same reference; a
    reconcile of a binding then leaves the bucket of every other secret
    as it was, whatever the translator and the gateway return. *)
Theorem sync_touches_own_secret_only
    (c : Controller) (ev : types.Event) (tls : configv1.ApisixTls) (s : state)
    (other : configv1.ApisixSecret) :
  no_underscore (configv1.Namespace (configv1.Secret (configv1.tls_Spec tls))) = true ->
  no_underscore (configv1.Namespace other) = true ->
  other <> configv1.Secret (configv1.tls_Spec tls) ->
  resolve c ev = Effective (Some tls) ->
  secretKey other <> secretKey (configv1.Secret (configv1.tls_Spec tls))
  /\ secretSSLMap (snd (sync c ev s)) !! secretKey other
     = secretSSLMap s !! secretKey other.
Proof.
  intros Hns Hother Hne Hres.
  assert (Hkey : secretKey other <> secretKey (configv1.Secret (configv1.tls_Spec tls))).
  { intros Heq. apply Hne. by apply secretKey_inj. }
  split; [done|]. unfold sync. rewrite Hres. by apply reconcile_other_key.
Qed.

Lemma sync_touches_own_secret_only_witness :
  let c := demo.tls_controller (Some (demo.tls_at "2"), None) demo.secrets None in
  let ev := demo.tls_event types.EventAdd None in
  let other := {| configv1.Name := "atls"; configv1.Namespace := "helm-test" |} in
  let s := {| secretSSLMap := {[ "helm-test_atls" := {[ "helm_bar" := demo.ssl_bar ]} ]};
              trace := [] |} in
  no_underscore "helm" = true
  /\ no_underscore "helm-test" = true
  /\ resolve c ev = Effective (Some (demo.tls_at "2"))
  /\ secretSSLMap (snd (sync c ev s)) !! "helm-test_atls"
     = Some {[ "helm_bar" := demo.ssl_bar ]}.
Proof.
  intros c ev other s.
  assert (Hne : other <> configv1.Secret (configv1.tls_Spec (demo.tls_at "2")))
    by discriminate.
  split; [reflexivity|]. split; [reflexivity|]. split; [reflexivity|].
  exact (proj2 (sync_touches_own_secret_only c ev (demo.tls_at "2") s other
                  eq_refl eq_refl Hne eq_refl)).
Defined.

End tls_runs.

(** ** The TLS reconcile as a whole, its handlers and its worker *)

Section tls_controller.
Import ingress index workers.

(** What a reconcile adds to the trace: nothing, the translation call
    alone or with the warning, or translation, gateway sync and the
    recorded event. *)
Lemma reconcile_cases c ev tls s :
  let r := reconcile c ev tls s in
  (snd r = s)
  \/ (exists t rest, tls = Some t
        /\ (forall ssl, TranslateSSL c t <> Return ssl)
        /\ secretSSLMap (snd r) = secretSSLMap s
        /\ trace (snd r) = (trace s ++ CallTranslateSSL t :: rest)%list
        /\ (rest = [] \/ exists message,
              rest = [ RecorderEvent t EventTypeWarning _resourceSyncAborted message ]))
  \/ (exists t ssl recorded, tls = Some t
        /\ TranslateSSL c t = Return ssl
        /\ secretSSLMap (snd r)
           = syncSecretSSL (secretKey (configv1.Secret (configv1.tls_Spec t))) ssl
               (types.Type_ ev) (secretSSLMap s)
        /\ trace (snd r)
           = (trace s ++ [ CallTranslateSSL t;
                           CallSyncSSL (secretSSLMap (snd r)) ssl (types.Type_ ev);
                           recorded ])%list
        /\ fst r = match syncSSL c (secretSSLMap (snd r)) ssl (types.Type_ ev) with
                   | Some err => Fail err
                   | None => Return tt
                   end
        /\ tls_is_CallSyncSSL recorded = false
        /\ tls_is_queue_call recorded = false).
Proof.
  intros r. unfold r, reconcile. destruct tls as [t|]; [|by left].
  destruct (TranslateSSL c t) as [ssl|err|p] eqn:Htr; cbn.
  - right. right. exists t, ssl. cbn.
    destruct (syncSSL c _ ssl (types.Type_ ev)) as [err|] eqn:Hsync; cbn;
      eexists; split_and!;
      first [ done | rewrite <- !app_assoc; reflexivity | by rewrite Hsync ].
  - right. left. exists t. eexists. split_and!; [done|by rewrite Htr|done| |].
    + rewrite <- app_assoc. reflexivity.
    + right. by eexists.
  - right. left. exists t, []. split_and!; [done|by rewrite Htr|done|done|by left].
Qed.

(** X7.  A reconcile either makes no gateway call and leaves the index
    as it was, or it has translated the binding, updated the index for
    the binding's secret and then made exactly one gateway call, which
    saw the index as the reconcile leaves it. *)
Theorem sync_gateway_call_follows_index_update
    (c : Controller) (ev : types.Event) (s : state) :
  exists new,
    trace (snd (sync c ev s)) = (trace s ++ new)%list
    /\ ((count tls_is_CallSyncSSL new = 0%nat
         /\ secretSSLMap (snd (sync c ev s)) = secretSSLMap s)
        \/ (exists tls ssl recorded,
              TranslateSSL c tls = Return ssl
              /\ secretSSLMap (snd (sync c ev s))
                 = syncSecretSSL (secretKey (configv1.Secret (configv1.tls_Spec tls))) ssl
                     (types.Type_ ev) (secretSSLMap s)
              /\ new = [ CallTranslateSSL tls;
                         CallSyncSSL (secretSSLMap (snd (sync c ev s))) ssl (types.Type_ ev);
                         recorded ]
              /\ tls_is_CallSyncSSL recorded = false)).
Proof.
  unfold sync. destruct (resolve c ev) as [r|tls].
  - exists []. split; [by rewrite app_nil_r|]. by left.
  - destruct (reconcile_cases c ev tls s)
      as [Hsame|[(t & rest & -> & _ & Hidx & Htrace & Hrest)
                |(t & ssl & recorded & -> & Htr & Hidx & Htrace & _ & Hrec & _)]].
    + exists []. rewrite Hsame. split; [by rewrite app_nil_r|]. by left.
    + exists (CallTranslateSSL t :: rest). split; [done|]. left. split; [|done].
      by destruct Hrest as [->|[message ->]].
    + eexists. split; [exact Htrace|]. right. by exists t, ssl, recorded.
Qed.

(** Resolving an event aborts only on a Delete event without
    tombstone. *)
Lemma resolve_no_abort c ev :
  (types.Type_ ev = types.EventDelete -> is_Some (types.Tombstone ev)) ->
  forall p, resolve c ev <> Returned (Panic p).
Proof.
  intros Htomb p. unfold resolve.
  destruct (SplitMetaNamespaceKey c _) as [[namespace name] [err|]]; [done|].
  destruct (apisixTlsLister c namespace name) as [tls err].
  assert (Hafter :
    (if decide (types.Type_ ev = types.EventDelete)
     then match tls with
          | Some _ => Returned (Return tt)
          | None => match types.Tombstone ev with
                    | Some tombstone => Effective (Some tombstone)
                    | None => Returned (Panic InterfaceConversion)
                    end
          end
     else Effective tls) <> Returned (Panic p)).
  { case_decide as Hty; [|done]. destruct tls; [done|].
    by destruct (Htomb Hty) as [tombstone ->]. }
  destruct err as [err|]; [|done].
  destruct (IsNotFound err); simpl; [|done].
  destruct (decide (types.Type_ ev <> types.EventDelete)); [done | exact Hafter].
Qed.

(** X8.  Each handler enqueues at most one event, and only for a key
    that the namespace predicate accepts.  [onAdd] and [onUpdate] enqueue
    an event of their kind under the key of the (new) object, without
    tombstone.  [onDelete] enqueues a Delete event under the key of the
    deleted object, and the tombstone of the event is the deleted binding
    itself, also when the binding arrives wrapped as
    [DeletedFinalStateUnknown]; it does so whenever the key is computed
    and watched.  Hence resolving an enqueued event never aborts,
    whatever the cache holds by then. *)
Theorem handlers_enqueue_resolvable
    (c : Controller) (obj prev curr : object) (s : state) :
  let enqueued (ev : types.Event) (s' : state) :=
    s' = emit (WorkqueueAddRateLimited ev) s
    /\ namespaceWatching c (types.Object ev) = true
    /\ forall c' p, resolve c' ev <> Returned (Panic p) in
  let deleted (tls : configv1.ApisixTls) :=
    obj = ApisixTlsPtr tls
    \/ exists k, obj = DeletedFinalStateUnknown k (ApisixTlsPtr tls) in
  (onAdd c obj s = s
   \/ exists key,
        MetaNamespaceKeyFunc c obj = (key, None)
        /\ enqueued {| types.Type_ := types.EventAdd;
                       types.Object := key;
                       types.Tombstone := None |} (onAdd c obj s))
  /\ (snd (onUpdate c prev curr s) = s
      \/ exists key,
           MetaNamespaceKeyFunc c curr = (key, None)
           /\ enqueued {| types.Type_ := types.EventUpdate;
                          types.Object := key;
                          types.Tombstone := None |} (snd (onUpdate c prev curr s)))
  /\ (onDelete c obj s = s
      \/ exists key tls,
           deleted tls
           /\ DeletionHandlingMetaNamespaceKeyFunc c obj = (key, None)
           /\ enqueued {| types.Type_ := types.EventDelete;
                          types.Object := key;
                          types.Tombstone := Some tls |} (onDelete c obj s))
  /\ (forall key tls,
        deleted tls ->
        DeletionHandlingMetaNamespaceKeyFunc c obj = (key, None) ->
        namespaceWatching c key = true ->
        onDelete c obj s
        = emit (WorkqueueAddRateLimited
                  {| types.Type_ := types.EventDelete;
                     types.Object := key;
                     types.Tombstone := Some tls |}) s).
Proof.
  intros enqueued deleted. split_and!.
  - unfold onAdd. destruct (MetaNamespaceKeyFunc c obj) as [key [err|]]; [by left|].
    destruct (namespaceWatching c key) eqn:Hw; [|by left].
    right. exists key. split; [done|]. split_and!; [done|done|].
    intros c' p. by apply resolve_no_abort.
  - unfold onUpdate. destruct prev as [oldTls| |]; try by left.
    destruct curr as [newTls| |]; try by left.
    destruct (String.eqb _ _); [by left|].
    destruct (MetaNamespaceKeyFunc c _) as [key [err|]]; [by left|].
    destruct (namespaceWatching c key) eqn:Hw; [|by left].
    right. exists key. split; [done|]. split_and!; [done|done|].
    intros c' p. by apply resolve_no_abort.
  - unfold onDelete, deleted.
    destruct obj as [tls|k [tls| |]|]; try by left.
    + destruct (DeletionHandlingMetaNamespaceKeyFunc c _) as [key [err|]]; [by left|].
      destruct (namespaceWatching c key) eqn:Hw; [|by left].
      right. exists key, tls. split; [by left|]. split; [done|].
      split_and!; [done|done|].
      intros c' p. apply resolve_no_abort. by eexists.
    + destruct (DeletionHandlingMetaNamespaceKeyFunc c _) as [key [err|]]; [by left|].
      destruct (namespaceWatching c key) eqn:Hw; [|by left].
      right. exists key, tls. split; [right; by exists k|]. split; [done|].
      split_and!; [done|done|].
      intros c' p. apply resolve_no_abort. by eexists.
  - intros key tls Hdel Hkey Hw. unfold onDelete.
    destruct Hdel as [->|[k ->]]; by rewrite Hkey, Hw.
Qed.

(** The statement above for a binding deleted at version 2 whose final
    state arrives wrapped. *)
Lemma handlers_enqueue_resolvable_witness :
  let c := demo.tls_controller (None, None) demo.no_secrets None in
  let obj := DeletedFinalStateUnknown "helm/foo" (ApisixTlsPtr (demo.tls_at "2")) in
  DeletionHandlingMetaNamespaceKeyFunc c obj = ("helm/foo", None)
  /\ namespaceWatching c "helm/foo" = true
  /\ onDelete c obj demo.tls_start
     = emit (WorkqueueAddRateLimited
               (demo.tls_event types.EventDelete (Some (demo.tls_at "2"))))
            demo.tls_start.
Proof.
  intros c obj. split; [reflexivity|]. split; [reflexivity|].
  apply (proj2 (proj2 (proj2
           (handlers_enqueue_resolvable c obj obj obj demo.tls_start)))).
  - right. exists "helm/foo". reflexivity.
  - reflexivity.
  - reflexivity.
Defined.

(** What the reconcile adds to the trace holds no queue call. *)
Lemma sync_trace_no_queue_call c ev s :
  exists new, trace (snd (sync c ev s)) = (trace s ++ new)%list
              /\ List.filter tls_is_queue_call new = [].
Proof.
  unfold sync. destruct (resolve c ev) as [r|tls].
  - exists []. by rewrite app_nil_r.
  - destruct (reconcile_cases c ev tls s)
      as [Hsame|[(t & rest & -> & _ & _ & Htrace & Hrest)
                |(t & ssl & recorded & -> & Htr & _ & Htrace & _ & _ & Hrec)]].
    + exists []. rewrite Hsame. by rewrite app_nil_r.
    + eexists. split; [exact Htrace|]. by destruct Hrest as [->|[message ->]].
    + eexists. split; [exact Htrace|]. simpl. by rewrite Hrec.
Qed.

Lemma runWorker_queue_calls c ev s s' :
  runWorker c ev s = (Return tt, s') ->
  exists new succeeded,
    trace s' = (trace s ++ new)%list
    /\ List.filter tls_is_queue_call new = tls_item_calls ev succeeded
    /\ (succeeded = true <-> fst (sync c ev s) = Return tt).
Proof.
  unfold runWorker. destruct (sync_trace_no_queue_call c ev s) as (new & Htrace & Hnew).
  destruct (sync c ev s) as [[[]|err|p] s1] eqn:Hsync; simpl in *; [| |done].
  - intros [= <-]. exists (new ++ tls_item_calls ev true)%list, true.
    split_and!; [|by rewrite List.filter_app, Hnew|done].
    simpl. rewrite Htrace, <- !app_assoc. done.
  - intros [= <-]. exists (new ++ tls_item_calls ev false)%list, false.
    split_and!; [|by rewrite List.filter_app, Hnew|done].
    simpl. rewrite Htrace, <- !app_assoc. done.
Qed.

(** X9.  In a run of the worker that ends with the shutdown of the
    queue, the queue calls are, item by item and in the order the items
    were handed out, [Done] followed by either [Forget] or
    [AddRateLimited] for that item: no item is left unmarked, none is
    both forgotten and requeued. *)
Theorem tls_runWorker_queue_calls
    (c : Controller) (items : list types.Event) (s s' : state) :
  tls_runWorker c items s = (Return tt, s') ->
  exists new outcomes,
    trace s' = (trace s ++ new)%list
    /\ List.length outcomes = List.length items
    /\ List.filter tls_is_queue_call new
       = List.concat (zip_with tls_item_calls items outcomes).
Proof.
  revert s. induction items as [|ev items IH]; intros s; simpl.
  - intros [= <-]. exists [], []. by rewrite app_nil_r.
  - destruct (runWorker c ev s) as [[[]|err|p] s1] eqn:Hstep; [|done|done].
    intros Hrest.
    destruct (runWorker_queue_calls c ev s s1 Hstep) as (new1 & ok & Ht1 & Hq1 & _).
    destruct (IH s1 Hrest) as (new2 & outcomes & Ht2 & Hlen & Hq2).
    exists (new1 ++ new2)%list, (ok :: outcomes). split_and!.
    + by rewrite Ht2, Ht1, app_assoc.
    + simpl. by rewrite Hlen.
    + rewrite List.filter_app, Hq1, Hq2. done.
Qed.

Lemma tls_runWorker_queue_calls_witness :
  let c := demo.tls_controller (Some (demo.tls_at "2"), None) demo.no_secrets None in
  let vanished := demo.tls_controller (None, Some (StatusNotFound "gone")) demo.secrets None in
  let ev := demo.tls_event types.EventAdd None in
  (exists s', tls_runWorker c [ev; ev] demo.tls_start = (Return tt, s')
     /\ List.filter tls_is_queue_call (trace s')
        = [ WorkqueueDone ev; WorkqueueAddRateLimited ev;
            WorkqueueDone ev; WorkqueueAddRateLimited ev ])
  /\ exists s' new outcomes,
       tls_runWorker vanished [ev] demo.tls_start = (Return tt, s')
       /\ trace s' = new
       /\ List.length outcomes = 1%nat
       /\ List.filter tls_is_queue_call new
          = List.concat (zip_with tls_item_calls [ev] outcomes).
Proof.
  intros c vanished ev. split.
  - eexists. split; reflexivity.
  - eexists.
    destruct (tls_runWorker_queue_calls vanished [ev] demo.tls_start _ eq_refl)
      as (new & outcomes & Ht & Hlen & Hq).
    exists new, outcomes. split_and!; [reflexivity | exact Ht | exact Hlen | exact Hq].
Defined.

End tls_controller.

(** ** The upstream controller: handlers, reconcile and worker *)

Section upstream_controller.
Import controller workers.

(** X10.  The update handler never enqueues an UPDATE item.  It hands
    its own queue object to [addFunc], so what is enqueued, if anything,
    is an ADD item without old object, under the key that the key
    function returns for that queue object. *)
Theorem updateFunc_enqueues_add_only
    (c : ApisixUpstreamController) (oldObj newObj : object) (s : state) :
  snd (updateFunc c oldObj newObj s) = s
  \/ exists oldUpstream key0 key,
       oldObj = ApisixUpstreamPtr oldUpstream
       /\ MetaNamespaceKeyFunc c newObj = (key0, None)
       /\ MetaNamespaceKeyFunc c
            (UpstreamQueueObjPtr {| Key := key0; OldObj := Some oldUpstream; Ope := UPDATE |})
          = (key, None)
       /\ snd (updateFunc c oldObj newObj s)
          = emit (WorkqueueAddRateLimited
                    (UpstreamQueueObjPtr {| Key := key; OldObj := None; Ope := ADD |})) s.
Proof.
  unfold updateFunc.
  destruct oldObj as [oldUpstream| | |]; try by left.
  destruct newObj as [newUpstream| | |]; try by left.
  destruct (negb _); [by left|].
  destruct (MetaNamespaceKeyFunc c (ApisixUpstreamPtr newUpstream)) as [key0 [err|]] eqn:Hk0;
    [by left|].
  simpl. unfold addFunc.
  destruct (MetaNamespaceKeyFunc c (UpstreamQueueObjPtr _)) as [key [err|]] eqn:Hk;
    [by left|].
  right. by exists oldUpstream, key0, key.
Qed.

(** What the tail of [syncHandler] adds to the trace. *)
Lemma apply_calls c sqo crd s :
  apply c sqo crd s
  = if String.eqb (Ope sqo) DELETE
    then (match Remove c (Convert c crd) with Some err => Fail err | None => Return tt end,
          (s ++ [ CallConvert crd; CallRemove (Convert c crd) ])%list)
    else (match Solver c (Convert c crd) with Some err => Fail err | None => Return tt end,
          (s ++ [ CallConvert crd; CallSolver (Convert c crd) ])%list).
Proof.
  unfold apply, emit. destruct (String.eqb _ _).
  - destruct (Remove c _); by rewrite <- app_assoc.
  - destruct (Solver c _); by rewrite <- app_assoc.
Qed.

(** X11.  A reconcile of the upstream controller makes no call at all,
    or exactly one conversion followed by exactly one gateway call on
    what the conversion returned, whose result is the result of the
    reconcile: [Remove] for a DELETE item, converting the object the item
    carries, [Solver] for any other item, converting the cached
    object. *)
Theorem syncHandler_one_conversion_one_call
    (c : ApisixUpstreamController) (sqo : UpstreamQueueObj) (s : state) :
  snd (syncHandler c sqo s) = s
  \/ (Ope sqo = DELETE
      /\ syncHandler c sqo s
         = (match Remove c (Convert c (OldObj sqo)) with
            | Some err => Fail err
            | None => Return tt
            end,
            (s ++ [ CallConvert (OldObj sqo);
                    CallRemove (Convert c (OldObj sqo)) ])%list))
  \/ (Ope sqo <> DELETE
      /\ exists namespace name cached,
           apisixUpstreamList c namespace name = (cached, None)
           /\ syncHandler c sqo s
              = (match Solver c (Convert c cached) with
                 | Some err => Fail err
                 | None => Return tt
                 end,
                 (s ++ [ CallConvert cached; CallSolver (Convert c cached) ])%list)).
Proof.
  unfold syncHandler.
  destruct (SplitMetaNamespaceKey c _) as [[namespace name] [err|]]; [by left|].
  destruct (String.eqb_spec (Ope sqo) DELETE) as [Hope|Hope].
  - assert (Happly : apply c sqo (OldObj sqo) s
                     = (match Remove c (Convert c (OldObj sqo)) with
                        | Some err => Fail err
                        | None => Return tt
                        end,
                        (s ++ [ CallConvert (OldObj sqo);
                                CallRemove (Convert c (OldObj sqo)) ])%list)).
    { rewrite apply_calls. by rewrite (proj2 (String.eqb_eq _ _) Hope). }
    destruct (apisixUpstreamList c namespace name) as [[cached|] lookup_err].
    + destruct (OldObj sqo) as [old|] eqn:Hold; [|by left].
      destruct (string_lt _ _); [by left|].
      right. left. split; [done | exact Happly].
    + right. left. split; [done | exact Happly].
  - destruct (apisixUpstreamList c namespace name) as [cached [err|]] eqn:Hget.
    + left. by destruct (IsNotFound err).
    + right. right. split; [done|]. exists namespace, name, cached. split; [done|].
      rewrite apply_calls. by rewrite (proj2 (String.eqb_neq _ _) Hope).
Qed.

(** The handler aborts only on a DELETE item without old object. *)
Lemma syncHandler_no_abort c sqo s :
  (Ope sqo = DELETE -> is_Some (OldObj sqo)) ->
  forall p, fst (syncHandler c sqo s) <> Panic p.
Proof.
  intros Hold p. unfold syncHandler.
  destruct (SplitMetaNamespaceKey c _) as [[namespace name] [err|]]; [done|].
  destruct (String.eqb_spec (Ope sqo) DELETE) as [Hope|Hope].
  - destruct (Hold Hope) as [old Ho]. rewrite Ho.
    destruct (apisixUpstreamList c namespace name) as [[cached|] lookup_err].
    + destruct (string_lt _ _); [done|]. rewrite apply_calls.
      destruct (String.eqb _ _); [by destruct (Remove c _) | by destruct (Solver c _)].
    + rewrite apply_calls.
      destruct (String.eqb _ _); [by destruct (Remove c _) | by destruct (Solver c _)].
  - destruct (apisixUpstreamList c namespace name) as [cached [err|]].
    + by destruct (IsNotFound err).
    + rewrite apply_calls.
      destruct (String.eqb _ _); [by destruct (Remove c _) | by destruct (Solver c _)].
Qed.

(** X12.  Each handler enqueues at most one item, always a queue
    object.  [addFunc] enqueues the ADD item of the key of its object,
    without old object, and so does [updateFunc] through it.
    [deleteFunc] enqueues the DELETE item of the key of the deleted
    object, and the item carries the deleted object itself, also when it
    arrives wrapped as [DeletedFinalStateUnknown]; it does so whenever
    the key is computed.  The reconcile of an enqueued item therefore
    never aborts, whatever the cache and the gateway return. *)
Theorem upstream_handlers_enqueue_safe_items
    (c : ApisixUpstreamController) (obj oldObj newObj : object) (s : state) :
  let enqueued (sqo : UpstreamQueueObj) (s' : state) :=
    s' = emit (WorkqueueAddRateLimited (UpstreamQueueObjPtr sqo)) s
    /\ forall c' s0 p, fst (syncHandler c' sqo s0) <> Panic p in
  let deleted (u : configv1.ApisixUpstream) :=
    obj = ApisixUpstreamPtr u
    \/ exists k, obj = DeletedFinalStateUnknown k (ApisixUpstreamPtr u) in
  (addFunc c obj s = s
   \/ exists key,
        MetaNamespaceKeyFunc c obj = (key, None)
        /\ enqueued {| Key := key; OldObj := None; Ope := ADD |} (addFunc c obj s))
  /\ (snd (updateFunc c oldObj newObj s) = s
      \/ exists oldUpstream key0 key,
           oldObj = ApisixUpstreamPtr oldUpstream
           /\ MetaNamespaceKeyFunc c newObj = (key0, None)
           /\ MetaNamespaceKeyFunc c
                (UpstreamQueueObjPtr
                   {| Key := key0; OldObj := Some oldUpstream; Ope := UPDATE |})
              = (key, None)
           /\ enqueued {| Key := key; OldObj := None; Ope := ADD |}
                       (snd (updateFunc c oldObj newObj s)))
  /\ (deleteFunc c obj s = s
      \/ exists key u,
           deleted u
           /\ DeletionHandlingMetaNamespaceKeyFunc c obj = (key, None)
           /\ enqueued {| Key := key; OldObj := Some u; Ope := DELETE |}
                       (deleteFunc c obj s))
  /\ (forall key u,
        deleted u ->
        DeletionHandlingMetaNamespaceKeyFunc c obj = (key, None) ->
        deleteFunc c obj s
        = emit (WorkqueueAddRateLimited
                  (UpstreamQueueObjPtr
                     {| Key := key; OldObj := Some u; Ope := DELETE |})) s).
Proof.
  intros enqueued deleted.
  assert (Hadd : forall o,
             addFunc c o s = s
             \/ exists key,
                  MetaNamespaceKeyFunc c o = (key, None)
                  /\ enqueued {| Key := key; OldObj := None; Ope := ADD |} (addFunc c o s)).
  { intros o. unfold addFunc.
    destruct (MetaNamespaceKeyFunc c o) as [key [err|]]; [by left|].
    right. exists key. split; [done|]. split; [done|].
    intros c' s0 p. by apply syncHandler_no_abort. }
  split_and!.
  - apply Hadd.
  - unfold updateFunc.
    destruct oldObj as [oldUpstream| | |]; try by left.
    destruct newObj as [newUpstream| | |]; try by left.
    destruct (negb _); [by left|].
    destruct (MetaNamespaceKeyFunc c (ApisixUpstreamPtr newUpstream)) as [key0 [err|]];
      [by left|].
    simpl.
    destruct (Hadd (UpstreamQueueObjPtr
                      {| Key := key0; OldObj := Some oldUpstream; Ope := UPDATE |}))
      as [Hsame|(key & Hkey & Henq)]; [by left|].
    right. by exists oldUpstream, key0, key.
  - unfold deleteFunc, deleted.
    destruct obj as [u|k [u| | |]| |]; try by left.
    + destruct (DeletionHandlingMetaNamespaceKeyFunc c _) as [key [err|]]; [by left|].
      right. exists key, u. split; [by left|]. split; [done|]. split; [done|].
      intros c' s0 p. apply syncHandler_no_abort. by eexists.
    + destruct (DeletionHandlingMetaNamespaceKeyFunc c _) as [key [err|]]; [by left|].
      right. exists key, u. split; [right; by exists k|]. split; [done|]. split; [done|].
      intros c' s0 p. apply syncHandler_no_abort. by eexists.
  - intros key u Hdel Hkey. unfold deleteFunc.
    destruct Hdel as [->|[k ->]]; by rewrite Hkey.
Qed.

(** The statement above for a policy deleted at version 9 whose final
    state arrives wrapped. *)
Lemma upstream_handlers_enqueue_safe_items_witness :
  let c := demo.upstream_controller (None, None) in
  let obj := DeletedFinalStateUnknown "ns/svc" (ApisixUpstreamPtr (demo.upstream_at "9")) in
  DeletionHandlingMetaNamespaceKeyFunc c obj = ("ns/svc", None)
  /\ deleteFunc c obj []
     = [ WorkqueueAddRateLimited
           (UpstreamQueueObjPtr (demo.upstream_item DELETE (Some (demo.upstream_at "9")))) ].
Proof.
  intros c obj. split; [reflexivity|].
  apply (proj2 (proj2 (proj2
           (upstream_handlers_enqueue_safe_items c obj obj obj [])))).
  - right. exists "ns/svc". reflexivity.
  - reflexivity.
Defined.

Lemma syncHandler_no_queue_call c sqo s :
  exists new, snd (syncHandler c sqo s) = (s ++ new)%list
              /\ List.filter upstream_is_queue_call new = [].
Proof.
  assert (Hnone : exists new, s = (s ++ new)%list
                              /\ List.filter upstream_is_queue_call new = []).
  { exists []. by rewrite app_nil_r. }
  assert (Happly : forall crd,
            exists new, snd (apply c sqo crd s) = (s ++ new)%list
                        /\ List.filter upstream_is_queue_call new = []).
  { intros crd. rewrite apply_calls. destruct (String.eqb _ _); by eexists. }
  unfold syncHandler.
  destruct (SplitMetaNamespaceKey c _) as [[namespace name] [err|]]; [done|].
  destruct (String.eqb _ _).
  - destruct (apisixUpstreamList c namespace name) as [[cached|] lookup_err];
      [|apply Happly].
    destruct (OldObj sqo) as [old|]; [|done].
    destruct (string_lt _ _); [done | apply Happly].
  - destruct (apisixUpstreamList c namespace name) as [cached [err|]]; [|apply Happly].
    by destruct (IsNotFound err).
Qed.

Lemma processNextWorkItem_queue_calls c obj s s' :
  processNextWorkItem c obj s = (Return true, s') ->
  exists new forgotten,
    s' = (s ++ new)%list
    /\ List.filter upstream_is_queue_call new = upstream_item_calls obj forgotten.
Proof.
  unfold processNextWorkItem.
  destruct obj as [u|key o|sqo|].
  1, 2, 4: intros [= <-]; eexists _, true;
           (split; [unfold emit; rewrite <- app_assoc; reflexivity | reflexivity]).
  destruct (syncHandler_no_queue_call c sqo s) as (new & Hs & Hnew).
  destruct (syncHandler c sqo s) as [[[]|err|p] s1]; simpl in Hs; subst s1; [| |done].
  - intros [= <-]. exists (new ++ upstream_item_calls (UpstreamQueueObjPtr sqo) true)%list, true.
    split; [unfold emit; by rewrite <- !app_assoc|].
    by rewrite List.filter_app, Hnew.
  - intros [= <-]. exists (new ++ upstream_item_calls (UpstreamQueueObjPtr sqo) false)%list, false.
    split; [unfold emit; by rewrite <- !app_assoc|].
    by rewrite List.filter_app, Hnew.
Qed.

Lemma processNextWorkItem_continues c obj s s' b :
  processNextWorkItem c obj s = (Return b, s') -> b = true.
Proof.
  unfold processNextWorkItem. destruct obj as [u|key o|sqo|]; try by intros [= <- _].
  by destruct (syncHandler c sqo s) as [[[]|err|p] s1]; intros [= <- _].
Qed.

(** X13.  In a run of the upstream worker that ends with the shutdown
    of the queue, the queue calls are, item by item and in the order the
    items were handed out, either [Forget] or [AddRateLimited] followed
    by [Done] for that item; an item that is not a queue object is
    forgotten without a reconcile. *)
Theorem upstream_runWorker_queue_calls
    (c : ApisixUpstreamController) (items : list object) (s s' : state) :
  upstream_runWorker c items s = (Return tt, s') ->
  (exists new outcomes,
     s' = (s ++ new)%list
     /\ List.length outcomes = List.length items
     /\ List.filter upstream_is_queue_call new
        = List.concat (zip_with upstream_item_calls items outcomes))
  /\ forall obj, (forall sqo, obj <> UpstreamQueueObjPtr sqo) ->
       processNextWorkItem c obj s
       = (Return true, (s ++ upstream_item_calls obj true)%list).
Proof.
  intros Hrun. split.
  - revert s Hrun. induction items as [|obj items IH]; intros s; simpl.
    + intros [= <-]. exists [], []. by rewrite app_nil_r.
    + destruct (processNextWorkItem c obj s) as [[b|err|p] s1] eqn:Hstep; [|done|done].
      pose proof (processNextWorkItem_continues _ _ _ _ _ Hstep) as ->.
      intros Hrest.
      destruct (processNextWorkItem_queue_calls c obj s s1 Hstep) as (new1 & ok & -> & Hq1).
      destruct (IH _ Hrest) as (new2 & outcomes & -> & Hlen & Hq2).
      exists (new1 ++ new2)%list, (ok :: outcomes). split_and!.
      * by rewrite app_assoc.
      * simpl. by rewrite Hlen.
      * rewrite List.filter_app, Hq1, Hq2. done.
  - intros obj Hobj. unfold processNextWorkItem, emit.
    destruct obj as [u|key o|sqo|]; simpl; rewrite <- ?app_assoc; try done.
    by destruct (Hobj sqo).
Qed.

Lemma upstream_runWorker_queue_calls_witness :
  let c := demo.upstream_controller (None, Some (OtherError "cache closed")) in
  let item := UpstreamQueueObjPtr (demo.upstream_item ADD None) in
  exists s' new outcomes,
    upstream_runWorker c [item; OtherObject] [] = (Return tt, s')
    /\ s' = new
    /\ List.length outcomes = 2%nat
    /\ List.filter upstream_is_queue_call new
       = List.concat (zip_with upstream_item_calls [item; OtherObject] outcomes)
    /\ s' = [ WorkqueueAddRateLimited item; WorkqueueDone item;
              WorkqueueForget OtherObject; WorkqueueDone OtherObject ].
Proof.
  intros c item. eexists.
  destruct (proj1 (upstream_runWorker_queue_calls c [item; OtherObject] [] _ eq_refl))
    as (new & outcomes & Ht & Hlen & Hq).
  exists new, outcomes.
  split_and!; [reflexivity | exact Ht | exact Hlen | exact Hq | reflexivity].
Defined.

(** Go's order on strings is decided by the first byte when the first
    bytes differ. *)
Lemma string_lt_first_byte (a b : ascii) (s1 s2 : string) :
  (N_of_ascii b < N_of_ascii a)%N ->
  string_lt (String a s1) (String b s2) = false
  /\ string_lt (String b s2) (String a s1) = true.
Proof.
  intros Hlt. unfold string_lt. simpl. unfold Ascii.compare.
  rewrite (proj2 (N.compare_gt_iff _ _) Hlt).
  by rewrite (proj2 (N.compare_lt_iff _ _) Hlt).
Qed.

(** X14.  Resource versions are compared bytewise.  When the first byte
    of the new version is smaller than the first byte of the old one, as
    for 10 after 9, the update handler drops the update, and a DELETE
    item that carries the old version is not discarded as stale although
    the cache holds the newer object: it goes on to conversion and
    removal.  The lengths of the versions play no part. *)
Theorem version_order_is_bytewise
    (c : ApisixUpstreamController) (a b : ascii) (s1 s2 : string)
    (oldUpstream newUpstream : configv1.ApisixUpstream) :
  configv1.au_ResourceVersion oldUpstream = String a s1 ->
  configv1.au_ResourceVersion newUpstream = String b s2 ->
  (N_of_ascii b < N_of_ascii a)%N ->
  (forall s, updateFunc c (ApisixUpstreamPtr oldUpstream) (ApisixUpstreamPtr newUpstream) s
             = (Return tt, s))
  /\ (forall sqo s namespace name err,
        Ope sqo = DELETE ->
        OldObj sqo = Some oldUpstream ->
        SplitMetaNamespaceKey c (Key sqo) = ((namespace, name), None) ->
        apisixUpstreamList c namespace name = (Some newUpstream, err) ->
        snd (syncHandler c sqo s)
        = (s ++ [ CallConvert (Some oldUpstream);
                  CallRemove (Convert c (Some oldUpstream)) ])%list).
Proof.
  intros Hold Hnew Hlt.
  destruct (string_lt_first_byte a b s1 s2 Hlt) as [Hge _]. split.
  - intros s. unfold updateFunc. by rewrite Hold, Hnew, Hge.
  - intros sqo s namespace name err Hope Hobj Hsplit Hget.
    unfold syncHandler. rewrite Hsplit, Hope, Hget, Hobj, Hold, Hnew, Hge.
    rewrite apply_calls, Hope. simpl. by destruct (Remove c (Convert c (Some oldUpstream))).
Qed.

Lemma version_order_is_bytewise_witness :
  let c := demo.upstream_controller (Some (demo.upstream_at "10"), None) in
  let sqo := demo.upstream_item DELETE (Some (demo.upstream_at "9")) in
  (N_of_ascii "1" < N_of_ascii "9")%N
  /\ updateFunc c (ApisixUpstreamPtr (demo.upstream_at "9"))
       (ApisixUpstreamPtr (demo.upstream_at "10")) [] = (Return tt, [])
  /\ snd (syncHandler c sqo [])
     = [ CallConvert (Some (demo.upstream_at "9"));
         CallRemove [ demo.default_upstream ] ].
Proof.
  intros c sqo.
  assert (Hlt : (N_of_ascii "1" < N_of_ascii "9")%N) by reflexivity.
  destruct (version_order_is_bytewise c "9"%char "1"%char "" "0"
              (demo.upstream_at "9") (demo.upstream_at "10") eq_refl eq_refl Hlt)
    as [Hupdate Hdelete].
  split; [exact Hlt|]. split; [apply Hupdate|].
  exact (Hdelete sqo [] "ns" "svc" None eq_refl eq_refl eq_refl eq_refl).
Defined.

End upstream_controller.

(** ** Node resolution from an EndpointSlice *)

Section slice_nodes.
Import translation nodes_spec slices.

Lemma findSlicePort_named ports name :
  Forall (fun q => is_Some (discoveryv1beta1.Name q)) ports ->
  findSlicePort ports name
  = Return (List.find (fun q => bool_decide (discoveryv1beta1.Name q = Some name)) ports).
Proof.
  induction 1 as [|q ports [n Hn] _ IH]; simpl; [done|].
  rewrite Hn. simpl. destruct (String.eqb_spec n name) as [->|Hne].
  - by rewrite bool_decide_eq_true_2.
  - rewrite bool_decide_eq_false_2 by congruence. done.
Qed.

(** A port without name aborts the search when no port before it bears
    the name. *)
Lemma findSlicePort_nil_name pre q rest name :
  Forall (fun x => exists n, discoveryv1beta1.Name x = Some n /\ n <> name) pre ->
  discoveryv1beta1.Name q = None ->
  findSlicePort (pre ++ q :: rest) name = Panic NilPointerDereference.
Proof.
  intros Hpre Hq. induction Hpre as [|x pre (n & Hn & Hne) _ IH]; simpl.
  - by rewrite Hq.
  - rewrite Hn. simpl. by rewrite (proj2 (String.eqb_neq _ _) Hne).
Qed.

Lemma appendSliceAddresses_at epPort p addrs nodes :
  discoveryv1beta1.Port epPort = Some p ->
  appendSliceAddresses epPort addrs nodes
  = Return (nodes ++ List.map (fun addr => slice_node addr p) addrs)%list.
Proof.
  intros Hp. revert nodes. induction addrs as [|addr addrs IH]; intros nodes; simpl.
  - by rewrite app_nil_r.
  - rewrite Hp. simpl. rewrite IH, <- app_assoc. done.
Qed.

Lemma appendSliceAddresses_nil_port epPort addrs nodes :
  discoveryv1beta1.Port epPort = None ->
  appendSliceAddresses epPort addrs nodes
  = match addrs with
    | [] => Return nodes
    | _ :: _ => Panic NilPointerDereference
    end.
Proof. intros Hp. destruct addrs; simpl; [done|]. by rewrite Hp. Qed.

Lemma rangeEndpoints_found svcPort ports eps nodes epPort :
  findSlicePort ports (corev1.sp_Name svcPort) = Return (Some epPort) ->
  rangeEndpoints svcPort ports eps nodes
  = match discoveryv1beta1.Port epPort with
    | Some p =>
        Return (nodes ++ List.flat_map
                           (fun ep => List.map (fun addr => slice_node addr p)
                                               (discoveryv1beta1.Addresses ep)) eps)%list
    | None =>
        if forallb no_address eps then Return nodes
        else Panic NilPointerDereference
    end.
Proof.
  intros Hfind. revert nodes. induction eps as [|ep eps IH]; intros nodes; simpl.
  - destruct (discoveryv1beta1.Port epPort); [by rewrite app_nil_r | done].
  - rewrite Hfind. simpl. destruct (discoveryv1beta1.Port epPort) as [p|] eqn:Hp.
    + rewrite (appendSliceAddresses_at _ p) by done. simpl.
      rewrite IH, <- app_assoc. done.
    + rewrite appendSliceAddresses_nil_port by done. unfold no_address.
      destruct (discoveryv1beta1.Addresses ep); simpl; [apply IH | done].
Qed.

Lemma rangeEndpoints_not_found svcPort ports eps nodes :
  findSlicePort ports (corev1.sp_Name svcPort) = Return None ->
  rangeEndpoints svcPort ports eps nodes = Return nodes.
Proof.
  intros Hfind. induction eps as [|ep eps IH]; simpl; [done|].
  rewrite Hfind. simpl. apply IH.
Qed.

Lemma rangeEndpoints_search_aborts svcPort ports eps nodes p :
  findSlicePort ports (corev1.sp_Name svcPort) = Panic p ->
  rangeEndpoints svcPort ports eps nodes
  = match eps with
    | [] => Return nodes
    | _ :: _ => Panic p
    end.
Proof. intros Hfind. destruct eps; simpl; [done|]. by rewrite Hfind. Qed.

Lemma TranslateUpstreamNodesFromEndpointSlice_found t endpoints port svc svcPort :
  ServiceLister (opts t) (discoveryv1beta1.es_Namespace endpoints)
                (discoveryv1beta1.es_Name endpoints) = (Some svc, None) ->
  List.find (fun p => corev1.sp_Port p =? port) (corev1.Ports (corev1.Spec svc))
    = Some svcPort ->
  TranslateUpstreamNodesFromEndpointSlice t endpoints port
  = rangeEndpoints svcPort (discoveryv1beta1.Ports endpoints)
      (discoveryv1beta1.Endpoints endpoints) [].
Proof.
  intros Hsvc Hport. unfold TranslateUpstreamNodesFromEndpointSlice.
  rewrite Hsvc. simpl. by rewrite findServicePort_find, Hport.
Qed.

(** X15.  In a slice whose ports all carry a name, the port is searched
    among the ports of the slice, not per endpoint: when no port bears
    the name of the matched service port the result is the empty list
    without error; when one does, every address of every endpoint yields
    a node at the number of the first such port.  If that port has no
    number, the result is the empty list when no endpoint has an address,
    and an abort on the nil pointer otherwise. *)
Theorem slice_nodes_all_or_none
    (t : translator) (endpoints : discoveryv1beta1.EndpointSlice) (port : Z)
    (svc : corev1.Service) (svcPort : corev1.ServicePort) :
  ServiceLister (opts t) (discoveryv1beta1.es_Namespace endpoints)
                (discoveryv1beta1.es_Name endpoints) = (Some svc, None) ->
  List.find (fun p => corev1.sp_Port p =? port) (corev1.Ports (corev1.Spec svc))
    = Some svcPort ->
  Forall (fun q => is_Some (discoveryv1beta1.Name q)) (discoveryv1beta1.Ports endpoints) ->
  TranslateUpstreamNodesFromEndpointSlice t endpoints port
  = match List.find (fun q => bool_decide (discoveryv1beta1.Name q
                                           = Some (corev1.sp_Name svcPort)))
                    (discoveryv1beta1.Ports endpoints) with
    | None => Return []
    | Some epPort =>
        match discoveryv1beta1.Port epPort with
        | Some p =>
            Return (List.flat_map
                      (fun ep => List.map (fun addr => {| apisixv1.IP := addr;
                                                          apisixv1.Port := p;
                                                          apisixv1.Weight := 100 |})
                                          (discoveryv1beta1.Addresses ep))
                      (discoveryv1beta1.Endpoints endpoints))
        | None =>
            if forallb no_address (discoveryv1beta1.Endpoints endpoints)
            then Return []
            else Panic NilPointerDereference
        end
    end.
Proof.
  intros Hsvc Hport Hnamed.
  rewrite (TranslateUpstreamNodesFromEndpointSlice_found _ _ _ _ _ Hsvc Hport).
  pose proof (findSlicePort_named _ (corev1.sp_Name svcPort) Hnamed) as Hfind.
  destruct (List.find _ (discoveryv1beta1.Ports endpoints)) as [epPort|].
  - by rewrite (rangeEndpoints_found _ _ _ _ _ Hfind).
  - by rewrite (rangeEndpoints_not_found _ _ _ _ Hfind).
Qed.

Lemma slice_nodes_all_or_none_witness :
  ServiceLister (opts demo.t_endpoints) "ns" "svc" = (Some demo.svc, None)
  /\ Forall (fun q => is_Some (discoveryv1beta1.Name q)) (discoveryv1beta1.Ports demo.slice)
  /\ TranslateUpstreamNodesFromEndpointSlice demo.t_endpoints demo.slice 80
     = Return [ {| apisixv1.IP := "10.0.0.5"; apisixv1.Port := 8080; apisixv1.Weight := 100 |};
                {| apisixv1.IP := "10.0.0.6"; apisixv1.Port := 8080; apisixv1.Weight := 100 |} ]
  /\ TranslateUpstreamNodesFromEndpointSlice demo.t_endpoints demo.slice 443 = Return [].
Proof.
  assert (Hnamed : Forall (fun q => is_Some (discoveryv1beta1.Name q))
                          (discoveryv1beta1.Ports demo.slice)).
  { repeat constructor. by eexists. }
  split; [reflexivity|]. split; [exact Hnamed|]. split.
  - exact (slice_nodes_all_or_none demo.t_endpoints demo.slice 80 demo.svc _
             eq_refl eq_refl Hnamed).
  - exact (slice_nodes_all_or_none demo.t_endpoints demo.slice 443 demo.svc _
             eq_refl eq_refl Hnamed).
Defined.

(** X16.  A slice port without name, met before any port that bears the
    name searched for, aborts node resolution on the nil pointer as soon
    as the slice has an endpoint, with or without addresses; a slice
    without endpoints yields the empty list, its ports are not looked
    at. *)
Theorem slice_port_without_name
    (t : translator) (endpoints : discoveryv1beta1.EndpointSlice) (port : Z)
    (svc : corev1.Service) (svcPort : corev1.ServicePort)
    (pre rest : list discoveryv1beta1.EndpointPort) (q : discoveryv1beta1.EndpointPort) :
  ServiceLister (opts t) (discoveryv1beta1.es_Namespace endpoints)
                (discoveryv1beta1.es_Name endpoints) = (Some svc, None) ->
  List.find (fun p => corev1.sp_Port p =? port) (corev1.Ports (corev1.Spec svc))
    = Some svcPort ->
  discoveryv1beta1.Ports endpoints = (pre ++ q :: rest)%list ->
  Forall (fun x => exists n, discoveryv1beta1.Name x = Some n
                             /\ n <> corev1.sp_Name svcPort) pre ->
  discoveryv1beta1.Name q = None ->
  TranslateUpstreamNodesFromEndpointSlice t endpoints port
  = match discoveryv1beta1.Endpoints endpoints with
    | [] => Return []
    | _ :: _ => Panic NilPointerDereference
    end.
Proof.
  intros Hsvc Hport Hports Hpre Hq.
  rewrite (TranslateUpstreamNodesFromEndpointSlice_found _ _ _ _ _ Hsvc Hport).
  apply rangeEndpoints_search_aborts. rewrite Hports.
  by apply findSlicePort_nil_name.
Qed.

Lemma slice_port_without_name_witness :
  let unnamed := {| discoveryv1beta1.Name := None; discoveryv1beta1.Port := Some 8080 |} in
  let slice_of eps :=
    {| discoveryv1beta1.es_Namespace := "ns";
       discoveryv1beta1.es_Name := "svc";
       discoveryv1beta1.Endpoints := eps;
       discoveryv1beta1.Ports := [ unnamed ] |} in
  ServiceLister (opts demo.t_endpoints) "ns" "svc" = (Some demo.svc, None)
  /\ TranslateUpstreamNodesFromEndpointSlice demo.t_endpoints (slice_of []) 80 = Return []
  /\ TranslateUpstreamNodesFromEndpointSlice demo.t_endpoints
       (slice_of [ {| discoveryv1beta1.Addresses := [] |} ]) 80
     = Panic NilPointerDereference.
Proof.
  intros unnamed slice_of. split; [reflexivity|]. split.
  - exact (slice_port_without_name demo.t_endpoints (slice_of []) 80 demo.svc _
             [] [] unnamed eq_refl eq_refl eq_refl (@List.Forall_nil _ _) eq_refl).
  - exact (slice_port_without_name demo.t_endpoints
             (slice_of [ {| discoveryv1beta1.Addresses := [] |} ]) 80 demo.svc _
             [] [] unnamed eq_refl eq_refl eq_refl (@List.Forall_nil _ _) eq_refl).
Defined.

End slice_nodes.

(** ** What a full upstream resolution returns *)

Section translate_upstream_results.
Import translation.

Lemma rangeEndpoints_no_Fail svcPort ports eps nodes err :
  rangeEndpoints svcPort ports eps nodes <> Fail err.
Proof.
  revert nodes. induction eps as [|ep eps IH]; intros nodes; simpl; [done|].
  assert (Hfind : forall ps, findSlicePort ps (corev1.sp_Name svcPort) <> Fail err).
  { induction ps as [|q ps IHps]; simpl; [done|].
    destruct (discoveryv1beta1.Name q) as [n|]; simpl; [|done].
    by destruct (String.eqb n _). }
  assert (Happ : forall epPort addrs ns, appendSliceAddresses epPort addrs ns <> Fail err).
  { intros epPort addrs. induction addrs as [|a addrs IHa]; intros ns; simpl; [done|].
    destruct (discoveryv1beta1.Port epPort); simpl; [apply IHa | done]. }
  specialize (Hfind ports).
  destruct (findSlicePort ports _) as [[epPort|]|e|p] eqn:Hf; simpl;
    [|apply IH|congruence|done].
  specialize (Happ epPort (discoveryv1beta1.Addresses ep) nodes).
  destruct (appendSliceAddresses _ _ _) as [ns|e|p] eqn:Ha; simpl;
    [apply IH|congruence|done].
Qed.

(** The errors of node resolution are structured errors of one of four
    fields. *)
Lemma resolveNodes_Fail E t namespace name port err :
  resolveNodes E t namespace name port = Fail err ->
  exists te, err = TranslateError te
             /\ field te ∈ [ "endpointslice"; "endpoints"; "service"; "service.spec.ports" ].
Proof.
  assert (Hsvc : forall ns n (k : corev1.ServicePort -> outcome (list apisixv1.UpstreamNode)),
    (forall sp, k sp <> Fail err) ->
    (let '(svc, e) := ServiceLister (opts t) ns n in
     match e with
     | Some e => Fail (TranslateError {| field := "service"; reason := Error e |})
     | None =>
         svc ← deref svc;
         match findServicePort (corev1.Ports (corev1.Spec svc)) port with
         | None => Fail (TranslateError {| field := "service.spec.ports";
                                           reason := "port not defined" |})
         | Some svcPort => k svcPort
         end
     end) = Fail err ->
    exists te, err = TranslateError te
               /\ field te ∈ [ "endpointslice"; "endpoints"; "service"; "service.spec.ports" ]).
  { intros ns n k Hk. destruct (ServiceLister _ ns n) as [svc [e|]].
    - intros [= <-]. eexists. split; [done|]. set_solver.
    - destruct svc as [svc|]; simpl; [|done].
      destruct (findServicePort _ _) as [sp|].
      + intros H. by destruct (Hk sp).
      + intros [= <-]. eexists. split; [done|]. set_solver. }
  unfold resolveNodes.
  destruct (_ =? EndpointSliceOnly).
  - destruct (EndpointSlicesLister E namespace name) as [es [e|]].
    + intros [= <-]. eexists. split; [done|]. set_solver.
    + destruct es as [es|]; simpl; [|done].
      unfold TranslateUpstreamNodesFromEndpointSlice. apply Hsvc.
      intros sp. apply rangeEndpoints_no_Fail.
  - destruct (_ =? EndpointsOnly); [|done].
    destruct (EndpointsLister E namespace name) as [eps [e|]].
    + intros [= <-]. eexists. split; [done|]. set_solver.
    + destruct eps as [eps|]; simpl; [|done].
      unfold TranslateUpstreamNodes. apply (Hsvc _ _ (fun sp => Return _)). done.
Qed.

(** X17.  An upstream that [TranslateUpstream] returns carries exactly
    the nodes that node resolution returned; so two translators that
    differ only in the upstream policies they see return the same nodes
    whenever both return an upstream. *)
Theorem TranslateUpstream_nodes_from_resolution
    (E : Env) (t : translator) (namespace name : string) (port : Z)
    (ups : apisixv1.Upstream) :
  TranslateUpstream E t namespace name port = Return ups ->
  resolveNodes E t namespace name port = Return (apisixv1.Nodes ups)
  /\ forall policies ups',
       TranslateUpstream E
         (NewTranslator {| EndpointMode_ := EndpointMode_ (opts t);
                           ServiceLister := ServiceLister (opts t);
                           ApisixUpstreamLister := policies |})
         namespace name port = Return ups' ->
       apisixv1.Nodes ups' = apisixv1.Nodes ups.
Proof.
  assert (Hnodes : forall t' u,
            TranslateUpstream E t' namespace name port = Return u ->
            resolveNodes E t' namespace name port = Return (apisixv1.Nodes u)).
  { intros t' u. unfold TranslateUpstream.
    destruct (resolveNodes E t' namespace name port) as [nodes| |]; simpl; [|done|done].
    destruct (ApisixUpstreamLister _ _ _) as [au [err|]].
    - destruct (IsNotFound err); [|done]. by intros [= <-].
    - destruct au as [au|]; simpl; [|done].
      destruct (TranslateUpstreamConfig E _); simpl; [|done|done]. by intros [= <-]. }
  intros Hret. split; [by apply Hnodes|].
  intros policies ups' Hret'.
  apply Hnodes in Hret. apply Hnodes in Hret'.
  assert (Hsame : resolveNodes E (NewTranslator
                    {| EndpointMode_ := EndpointMode_ (opts t);
                       ServiceLister := ServiceLister (opts t);
                       ApisixUpstreamLister := policies |}) namespace name port
                  = resolveNodes E t namespace name port) by reflexivity.
  rewrite Hsame, Hret in Hret'. by injection Hret'.
Qed.

Lemma TranslateUpstream_nodes_from_resolution_witness :
  exists ups ups',
    TranslateUpstream demo.env demo.t_policy "ns" "svc" 80 = Return ups
    /\ TranslateUpstream demo.env demo.t_endpoints "ns" "svc" 80 = Return ups'
    /\ apisixv1.Scheme ups <> apisixv1.Scheme ups'
    /\ apisixv1.Nodes ups' = apisixv1.Nodes ups.
Proof.
  eexists _, _.
  assert (H : TranslateUpstream demo.env demo.t_policy "ns" "svc" 80 = Return _)
    by reflexivity.
  split; [exact H|]. split; [reflexivity|]. split; [discriminate|].
  exact (proj2 (TranslateUpstream_nodes_from_resolution demo.env demo.t_policy
                  "ns" "svc" 80 _ H) demo.no_upstream _ eq_refl).
Defined.

(** X18.  Every error that [TranslateUpstream] returns is either a
    structured error of field [endpointslice], [endpoints], [service],
    [service.spec.ports] or [ApisixUpstream], or the error that the
    translation of the policy's configuration (top-level or of a
    port-level setting for the requested port) returned.  A lookup error
    is never passed on as it is. *)
Theorem TranslateUpstream_error_sources
    (E : Env) (t : translator) (namespace name : string) (port : Z) (err : error) :
  TranslateUpstream E t namespace name port = Fail err ->
  (exists te, err = TranslateError te
              /\ field te ∈ [ "endpointslice"; "endpoints"; "service";
                              "service.spec.ports"; "ApisixUpstream" ])
  \/ (exists au upsCfg,
        ApisixUpstreamLister (opts t) namespace name = (Some au, None)
        /\ TranslateUpstreamConfig E upsCfg = Fail err
        /\ (upsCfg = configv1.spec_Config (configv1.Spec au)
            \/ exists pls, pls ∈ configv1.PortLevelSettings (configv1.Spec au)
                           /\ configv1.Port pls = port
                           /\ upsCfg = configv1.pls_Config pls)).
Proof.
  unfold TranslateUpstream.
  destruct (resolveNodes E t namespace name port) as [nodes|e|p] eqn:Hnodes; simpl; [| |done].
  - destruct (ApisixUpstreamLister _ _ _) as [au [e|]] eqn:Hget.
    + destruct (IsNotFound e); [done|]. intros [= <-]. left.
      eexists. split; [done|]. set_solver.
    + destruct au as [au|]; simpl; [|done].
      destruct (TranslateUpstreamConfig E _) as [ups|e|p] eqn:Hcfg; simpl; [done| |done].
      intros [= <-]. right. eexists au, _. split_and!; [done | exact Hcfg |].
      rewrite selectConfig_find.
      destruct (List.find _ _) as [pls|] eqn:Hfind; [|by left].
      right. exists pls. apply List.find_some in Hfind as [Hin Hport].
      split_and!; [by apply list_elem_of_In | by apply Z.eqb_eq | done].
  - intros [= <-]. destruct (resolveNodes_Fail _ _ _ _ _ _ Hnodes) as (te & -> & Hfield).
    left. exists te. split; [done|].
    change (field te ∈ ([ "endpointslice"; "endpoints"; "service"; "service.spec.ports" ]
                        ++ [ "ApisixUpstream" ])%list).
    apply elem_of_app. by left.
Qed.

Lemma TranslateUpstream_error_sources_witness :
  let missing := translation.NewTranslator
                   {| EndpointMode_ := EndpointsOnly;
                      ServiceLister := demo.services;
                      ApisixUpstreamLister := demo.no_upstream |} in
  TranslateUpstream demo.env missing "ns" "other" 80
    = Fail (TranslateError {| field := "endpoints"; reason := "endpoints not found" |})
  /\ exists te, field te ∈ [ "endpointslice"; "endpoints"; "service";
                             "service.spec.ports"; "ApisixUpstream" ]
                /\ TranslateUpstream demo.env missing "ns" "other" 80
                   = Fail (TranslateError te).
Proof.
  intros missing. split; [reflexivity|].
  destruct (TranslateUpstream_error_sources demo.env missing "ns" "other" 80 _ eq_refl)
    as [(te & Heq & Hfield)|(au & upsCfg & Hget & _)].
  - exists te. split; [exact Hfield|]. rewrite <- Heq. reflexivity.
  - discriminate Hget.
Defined.

End translate_upstream_results.

(** ** The route client *)

Section route_client.
Import apisix.

Lemma rangeItems_Return st group routeItems items res :
  rangeItems st group routeItems items = Return res ->
  exists new, res = (items ++ new)%list
              /\ Forall2 (fun it r => route st it group = Return r) routeItems new.
Proof.
  revert items. induction routeItems as [|it routeItems IH]; intros items; simpl.
  - intros [= <-]. exists []. by rewrite app_nil_r.
  - destruct (route st it group) as [r|err|p] eqn:Hr; simpl; [|done|done].
    intros H. apply IH in H as (new & -> & Hnew).
    exists (r :: new). split; [by rewrite <- app_assoc|]. by constructor.
Qed.

Lemma rangeItems_first_failure st group pre it post items (o : outcome Route) :
  Forall (fun x => exists r, route st x group = Return r) pre ->
  route st it group = o ->
  (forall r, o <> Return r) ->
  rangeItems st group (pre ++ it :: post) items
  = match o with
    | Return _ => Return []
    | Fail err => Fail err
    | Panic p => Panic p
    end.
Proof.
  intros Hpre Hit Ho. revert items.
  induction Hpre as [|x pre [r Hx] _ IH]; intros items; simpl.
  - rewrite Hit. destruct o as [r|err|p]; [by destruct (Ho r)|done|done].
  - rewrite Hx. simpl. apply IH.
Qed.

(** X19.  [List] sends exactly one request, to the URL of the
    collection.  What it returns is all or nothing: either the
    conversions of all the listed items, in their order, or the result of
    the first conversion that fails; never a shorter list. *)
Theorem List_all_or_nothing (r : routeClient) (group : string) (s : list request) :
  snd (List r group s) = (s ++ [ ListResource (url r) ])%list
  /\ (forall routes,
        fst (List r group s) = Return routes ->
        exists routeItems,
          listResource (stub_ r) (url r) = Return routeItems
          /\ Forall2 (fun it rt => route (stub_ r) it group = Return rt) routeItems routes)
  /\ (forall pre it post err,
        listResource (stub_ r) (url r) = Return (pre ++ it :: post)%list ->
        Forall (fun x => exists rt, route (stub_ r) x group = Return rt) pre ->
        route (stub_ r) it group = Fail err ->
        fst (List r group s) = Fail err).
Proof.
  unfold List. split_and!.
  - by destruct (listResource _ _).
  - intros routes. destruct (listResource _ _) as [routeItems|err|p]; simpl; [|done|done].
    intros H. apply rangeItems_Return in H as (new & -> & Hnew). by exists routeItems.
  - intros pre it post err Hlist Hpre Hit. rewrite Hlist. simpl.
    by rewrite (rangeItems_first_failure _ _ _ _ _ _ (Fail err) Hpre Hit).
Qed.

Lemma List_all_or_nothing_witness :
  let bad := {| Key := "/apisix/routes/2"; Value := "not json" |} in
  let good := {| Key := "/apisix/routes/1"; Value := "{}" |} in
  let empty := {| ID := None; Name := None; Path := None; Host := None;
                  ServiceId := None; Group := None; Plugins := None |} in
  let st := {| baseURL := "http://127.0.0.1:9180/apisix/admin";
               listResource := fun _ => Return [ good; bad; good ];
               createResource := fun _ _ => Return good;
               deleteResource := fun _ => None;
               updateResource := fun _ _ => None;
               route := fun it _ =>
                 if String.eqb (Value it) "{}" then Return empty
                 else Fail (OtherError "invalid character");
               Marshal := fun _ => Return "{}" |} in
  listResource st (url (newRouteClient st)) = Return ([ good ] ++ bad :: [ good ])%list
  /\ route st bad "" = Fail (OtherError "invalid character")
  /\ fst (List (newRouteClient st) "" []) = Fail (OtherError "invalid character").
Proof.
  intros bad good empty st. split; [reflexivity|]. split; [reflexivity|].
  refine (proj2 (proj2 (List_all_or_nothing (newRouteClient st) "" []))
            [ good ] bad [ good ] _ eq_refl _ eq_refl).
  constructor; [|constructor]. by exists empty.
Defined.

(** X20.  A client built by [newRouteClient] creates under
    [baseURL/routes] and updates and deletes a route under
    [baseURL/routes/ID].  [Create] and [Update] send what [json.Marshal]
    returns for one and the same request body of the route.  Each makes
    at most one request, and none at all when marshalling fails or when
    the route lacks the pointer that the operation dereferences first
    (Host for [Create], ID for [Update] and [Delete]), where it aborts
    on the nil pointer. *)
Theorem route_requests (st : stub) (obj : Route) (s : list request) :
  let r := newRouteClient st in
  (match Host obj, Marshal st (body_of obj) with
   | None, _ => Create r obj s = (Panic NilPointerDereference, s)
   | Some _, Return data =>
       snd (Create r obj s) = (s ++ [ CreateResource (baseURL st ++ "/routes") data ])%list
   | Some _, Fail err => Create r obj s = (Fail err, s)
   | Some _, Panic p => Create r obj s = (Panic p, s)
   end)
  /\ (match ID obj, Marshal st (body_of obj) with
      | None, _ => Update r obj s = (Panic NilPointerDereference, s)
      | Some id, Return body =>
          snd (Update r obj s)
          = (s ++ [ UpdateResource (baseURL st ++ "/routes" ++ "/" ++ id) body ])%list
      | Some _, Fail err => Update r obj s = (Fail err, s)
      | Some _, Panic p => Update r obj s = (Panic p, s)
      end)
  /\ (match ID obj with
      | None => Delete r obj s = (Panic NilPointerDereference, s)
      | Some id =>
          Delete r obj s
          = (match deleteResource st (baseURL st ++ "/routes" ++ "/" ++ id) with
             | Some err => Fail err
             | None => Return tt
             end,
             (s ++ [ DeleteResource (baseURL st ++ "/routes" ++ "/" ++ id) ])%list)
      end).
Proof.
  intros r.
  assert (Happ : forall a b c : string, (a ++ b) ++ c = a ++ b ++ c).
  { intros a b c. induction a as [|x a IH]; [done|].
    change (String x ((a ++ b) ++ c) = String x (a ++ b ++ c)). by f_equal. }
  split_and!.
  - unfold Create. destruct (Host obj); [|done].
    destruct (Marshal st (body_of obj)) as [data|err|p] eqn:Hm; simpl; rewrite Hm; [|done|done].
    by destruct (createResource st _ data).
  - unfold Update. destruct (ID obj) as [id|]; [|done].
    destruct (Marshal st (body_of obj)) as [body|err|p] eqn:Hm; simpl; rewrite Hm; [|done|done].
    unfold r, newRouteClient. cbn [url stub_]. rewrite Happ.
    by destruct (updateResource st _ body).
  - unfold Delete. destruct (ID obj) as [id|]; [|done].
    unfold r, newRouteClient. cbn [url stub_]. rewrite Happ.
    by destruct (deleteResource st _).
Qed.

End route_client.

(** ** Endpoints and EndpointSlice resolve alike *)

Section endpoint_sources_agree.
Import translation nodes_spec slices.

Lemma find_slice_port name ports :
  List.find (fun q => bool_decide (discoveryv1beta1.Name q = Some name))
            (List.map slice_port ports)
  = option_map slice_port
      (List.find (fun p => String.eqb (corev1.ep_Name p) name) ports).
Proof.
  induction ports as [|p ports IH]; simpl; [done|].
  destruct (String.eqb_spec (corev1.ep_Name p) name) as [->|Hne].
  - by rewrite bool_decide_eq_true_2.
  - rewrite bool_decide_eq_false_2 by congruence. done.
Qed.

Lemma slice_ports_named ports :
  Forall (fun q => is_Some (discoveryv1beta1.Name q)) (List.map slice_port ports).
Proof. induction ports; simpl; constructor; [by eexists | done]. Qed.

Lemma flat_map_slice_endpoint p addrs :
  List.flat_map
    (fun ep => List.map (fun addr => slice_node addr p) (discoveryv1beta1.Addresses ep))
    (List.map slice_endpoint addrs)
  = List.map (fun addr => slice_node (corev1.IP addr) p) addrs.
Proof. induction addrs as [|a addrs IH]; simpl; [done | by rewrite IH]. Qed.

(** X21.  The two endpoint sources resolve alike: for an Endpoints
    object with a single subset and the slice that carries the same
    addresses and ports under the same namespace and name, node
    resolution returns the same result for every port, errors
    included. *)
Theorem slice_resolves_like_subset
    (t : translator) (namespace name : string) (subset : corev1.EndpointSubset)
    (port : Z) :
  TranslateUpstreamNodesFromEndpointSlice t (slice_of_subset namespace name subset) port
  = TranslateUpstreamNodes t
      {| corev1.Namespace := namespace; corev1.Name := name;
         corev1.Subsets := [ subset ] |} port.
Proof.
  unfold TranslateUpstreamNodesFromEndpointSlice, TranslateUpstreamNodes, slice_of_subset.
  cbn [corev1.Namespace corev1.Name corev1.Subsets discoveryv1beta1.es_Namespace
       discoveryv1beta1.es_Name discoveryv1beta1.Endpoints discoveryv1beta1.Ports].
  destruct (ServiceLister (opts t) namespace name) as [svc [err|]]; [done|].
  destruct svc as [svc|]; [|done].
  cbn [deref mbind outcome_bind].
  destruct (findServicePort _ port) as [svcPort|]; [|done].
  rewrite rangeSubsets_flat_map. simpl. rewrite app_nil_r.
  pose proof (findSlicePort_named _ (corev1.sp_Name svcPort)
                (slice_ports_named (corev1.ss_Ports subset))) as Hfind.
  rewrite find_slice_port in Hfind. unfold nodes_of_subset.
  destruct (List.find _ (corev1.ss_Ports subset)) as [epPort|]; simpl in Hfind.
  - rewrite (rangeEndpoints_found _ _ _ _ _ Hfind). simpl.
    by rewrite flat_map_slice_endpoint.
  - by rewrite (rangeEndpoints_not_found _ _ _ _ Hfind).
Qed.

End endpoint_sources_agree.
